(** * onlyfiles-downloader: a model of the batch downloader and its properties

    The development follows [onlyfiles-downloader.py].  A Python [str] is a
    sequence of Unicode code points, so it is modelled as [list N]; the
    operations of the [str] type and of [re] that the program calls are
    written out as functions on such lists.  State (the error log, the files
    on disk, the progress bar, the console) is passed explicitly, the network
    is an oracle carried by each task, and the cooperative scheduling of the
    tasks under the semaphore is a step relation. *)

From Stdlib Require Import NArith ZArith Ascii String.
From stdpp Require Import base option list gmap.

Local Open Scope N_scope.

(** ** Python strings *)

Module Str.

(** A [str] value: its code points in order. *)
Abbreviation str := (list N) (only parsing).

(** A source literal. *)
Definition lit (s : string) : str := map N_of_ascii (list_ascii_of_string s).
Arguments lit s%_string.

(** [s.startswith(p)] *)
Fixpoint startswith (p s : str) : bool :=
  match p, s with
  | [], _ => true
  | _ :: _, [] => false
  | a :: p', b :: s' => (a =? b) && startswith p' s'
  end.

(** [p in s] *)
Fixpoint contains (p s : str) : bool :=
  startswith p s ||
  match s with
  | [] => false
  | _ :: s' => contains p s'
  end.

(** [s.find(p)], with [None] for Python's [-1]. *)
Fixpoint find (p s : str) : option nat :=
  if startswith p s then Some 0%nat
  else match s with
       | [] => None
       | _ :: s' => S <$> find p s'
       end.

(** [str.isspace] on one code point: the characters whose bidirectional
    class is WS, B or S, or whose category is Zs. *)
Definition isspace (c : N) : bool :=
  ((9 <=? c) && (c <=? 13)) || ((28 <=? c) && (c <=? 32)) ||
  (c =? 133) || (c =? 160) || (c =? 5760) ||
  ((8192 <=? c) && (c <=? 8202)) || (c =? 8232) || (c =? 8233) ||
  (c =? 8239) || (c =? 8287) || (c =? 12288).

(** [s.lstrip(...)], [s.rstrip(...)] and [s.strip(...)] for a predicate on
    the characters to remove. *)
Fixpoint lstrip_by (f : N → bool) (s : str) : str :=
  match s with
  | [] => []
  | c :: s' => if f c then lstrip_by f s' else s
  end.

Definition rstrip_by (f : N → bool) (s : str) : str :=
  rev (lstrip_by f (rev s)).

Definition strip_by (f : N → bool) (s : str) : str :=
  rstrip_by f (lstrip_by f s).

(** [s.strip()] *)
Definition strip (s : str) : str := strip_by isspace s.

(** [s.strip(chars)] *)
Definition strip_chars (chars s : str) : str :=
  strip_by (λ c, bool_decide (c ∈ chars)) s.

(** [s.split(sep)] for a non-empty [sep]: the pieces between the
    occurrences of [sep] found from left to right, each search starting
    behind the previous occurrence.  The recursion is on a bound for the
    number of pieces; [split] gives it the length of the text. *)
Fixpoint split_upto (n : nat) (sep s : str) : list str :=
  match n with
  | O => [s]
  | S n' =>
      match find sep s with
      | None => [s]
      | Some i => take i s :: split_upto n' sep (drop (i + length sep) s)
      end
  end.

Definition split (sep s : str) : list str := split_upto (length s) sep s.

(** [l[-1]] of a list that is never empty here. *)
Definition last_item (l : list str) : str := List.last l [].

(** No proper end of [sep] is also a start of it: two occurrences of such
    a separator never overlap. *)
Definition unbordered (sep : str) : Prop :=
  ∀ x y z, sep = x ++ y → sep = y ++ z → x = [] ∨ y = [].

End Str.

Import Str.

(** ** Regular expressions of the program *)

Module Re.

(** The class [[a-f0-9]]. *)
Definition hex_lower (c : N) : bool :=
  ((97 <=? c) && (c <=? 102)) || ((48 <=? c) && (c <=? 57)).

(** [[a-f0-9]{32}] anchored at the head of [s]: the 32 characters matched. *)
Definition hex32_at (s : str) : option str :=
  let m := take 32 s in
  if (length m =? 32)%nat && forallb hex_lower m then Some m else None.

(** [re.search]: the leftmost position where the anchored matcher
    succeeds, with group 1 of that match. *)
Fixpoint search (at_head : str → option str) (s : str) : option str :=
  match at_head s with
  | Some m => Some m
  | None =>
      match s with
      | [] => None
      | _ :: s' => search at_head s'
      end
  end.

(** A literal prefix followed by [[a-f0-9]{32}], anchored. *)
Definition lit_hex32_at (prefix s : str) : option str :=
  if startswith prefix s then
    match hex32_at (drop (length prefix) s) with
    | Some m => Some (prefix ++ m)
    | None => None
    end
  else None.

End Re.

(** ** Constants and the pure functions of the program *)

Definition BASE_DOWNLOAD_FOLDER : str := lit "downloads".
Definition ERROR_LOG : str := lit "errors.txt".
Definition MAX_CONCURRENT_DOWNLOADS : nat := 15.

(** [ID_PATTERN = re.compile(r"([a-f0-9]{32})")], as [ID_PATTERN.search]. *)
Definition ID_PATTERN_search (s : str) : option str := Re.search Re.hex32_at s.

(** The search of [unwrap_pillowcase_url]'s second branch:
    [re.search(r"(https://pillowcase\.su/f/[a-f0-9]{32})", url)]. *)
Definition link_search (url : str) : option str :=
  Re.search (Re.lit_hex32_at (lit "https://pillowcase.su/f/")) url.

Definition unwrap_pillowcase_url (url : str) : option str :=
  if contains (lit "pillowcase.su/f/") url then Some url
  else match link_search url with
       | Some m => Some m
       | None => None
       end.


(** [parse_urls]: the file object iterates over the lines of the text, a line
    ending behind ["\n"], ["\r\n"] or ["\r"] (universal newlines, each read
    as ["\n"]); [cur] is the line read so far. *)
Fixpoint file_lines (cur s : str) : list str :=
  match s with
  | [] => match cur with [] => [] | _ => [cur] end
  | c :: s' =>
      if c =? 10 then (cur ++ [10]) :: file_lines [] s'
      else if c =? 13 then
        match s' with
        | d :: s'' =>
            if d =? 10 then (cur ++ [10]) :: file_lines [] s''
            else (cur ++ [10]) :: file_lines [] s'
        | [] => (cur ++ [10]) :: file_lines [] s'
        end
      else file_lines (cur ++ [c]) s'
  end.

(** The truth value of a [str]: empty is false. *)
Definition truthy (s : str) : bool := negb (bool_decide (s = [])).

Definition parse_urls (text : str) : list str :=
  strip <$> filter (λ line, truthy (strip line) = true) (file_lines [] text).

(** [os.path.join(a, b)] of [posixpath]. *)
Definition os_path_join (a b : str) : str :=
  if startswith (lit "/") b then b
  else if negb (truthy a) || startswith (lit "/") (rev a) then a ++ b
  else a ++ lit "/" ++ b.

(** ** The world outside the program

    What the run reads and changes.  Which file a path names is the file
    system's matter ([node_of]): the error log, which more paths than
    [errors.txt] may name, or another file, known by one name for all its
    paths.  [files] holds the files other than the error log, by that name,
    with the bytes in them; [error_log] the bytes of [errors.txt], [None]
    while it does not exist; [dirs] the directories that exist, by the
    paths under which the program asks for them; [progress] the number of
    times the progress bar was advanced; [stdout] the lines printed. *)

Inductive Node :=
| ErrorLog
| Other (name : list N).

#[global] Instance Node_eq_dec : EqDecision Node.
Proof. solve_decision. Defined.

Record World := {
  files : gmap (list N) (list N);
  dirs : list str;
  error_log : option str;
  progress : nat;
  stdout : list str;
  node_of : str → Node;
}.

Definition set_files (f : gmap (list N) (list N)) (w : World) : World :=
  {| files := f; dirs := dirs w; error_log := error_log w;
     progress := progress w; stdout := stdout w; node_of := node_of w |}.

Definition set_error_log (log : option str) (w : World) : World :=
  {| files := files w; dirs := dirs w; error_log := log;
     progress := progress w; stdout := stdout w; node_of := node_of w |}.

Definition set_dirs (d : list str) (w : World) : World :=
  {| files := files w; dirs := d; error_log := error_log w;
     progress := progress w; stdout := stdout w; node_of := node_of w |}.

Definition set_progress (n : nat) (w : World) : World :=
  {| files := files w; dirs := dirs w; error_log := error_log w;
     progress := n; stdout := stdout w; node_of := node_of w |}.

(** The line [f"{filename}\t{url}\t{reason}\n"]. *)
Definition error_record (filename url reason : str) : str :=
  filename ++ [9] ++ url ++ [9] ++ reason ++ [10].

(** [log_error]: the file is opened in append mode, which creates it, and
    the line goes behind what it holds. *)
Definition log_error (filename url reason : str) (w : World) : World :=
  {| files := files w; dirs := dirs w;
     error_log := Some (default [] (error_log w) ++ error_record filename url reason);
     progress := progress w; stdout := stdout w; node_of := node_of w |}.

(** [progress.update(1)] *)
Definition progress_update (w : World) : World :=
  set_progress (S (progress w)) w.

(** [print(line)] *)
Definition print (line : str) (w : World) : World :=
  {| files := files w; dirs := dirs w; error_log := error_log w;
     progress := progress w; stdout := stdout w ++ [line]; node_of := node_of w |}.

(** [posixpath.split(p)]: the text behind the last slash, and the text
    before it without the slashes at its end, unless it is slashes only. *)
Fixpoint until_slash (s : str) : str :=
  match s with
  | [] => []
  | c :: s' => if c =? 47 then [] else c :: until_slash s'
  end.

Definition os_path_split (p : str) : str * str :=
  let tail := rev (until_slash (rev p)) in
  let head := take (length p - length tail) p in
  (if truthy head && negb (forallb (λ c, c =? 47) head)
   then rstrip_by (λ c, c =? 47) head else head,
   tail).

(** [os.mkdir(name)] under [exist_ok=True]: a directory that exists is
    left as it is. *)
Definition mkdir (name : str) (w : World) : World :=
  if bool_decide (name ∈ dirs w) then w else set_dirs (dirs w ++ [name]) w.

(** [os.makedirs(name, exist_ok=True)]: the missing directories above
    [name] are made first.  The recursion of [os.makedirs] is on the head
    of the path, which gets shorter; [n] bounds its depth. *)
Fixpoint makedirs_upto (n : nat) (name : str) (w : World) : World :=
  match n with
  | O => mkdir name w
  | S n' =>
      let '(head, tail) := os_path_split name in
      let '(head, tail) :=
        if truthy tail then (head, tail) else os_path_split head in
      if truthy head && truthy tail && negb (bool_decide (head ∈ dirs w))
      then
        let w' := makedirs_upto n' head w in
        if bool_decide (tail = lit ".") then w' else mkdir name w'
      else mkdir name w
  end.

Definition makedirs (path : str) (w : World) : World :=
  makedirs_upto (length path) path w.

(** The file that a path names: [errors.txt] names the error log, and the
    file system says what the other paths name. *)
Definition path_node (w : World) (path : str) : Node :=
  if bool_decide (path = ERROR_LOG) then ErrorLog else node_of w path.

(** The bytes behind a path, and putting bytes behind it. *)
Definition content_at (path : str) (w : World) : option (list N) :=
  match path_node w path with
  | ErrorLog => error_log w
  | Other name => files w !! name
  end.

Definition set_content (path : str) (data : list N) (w : World) : World :=
  match path_node w path with
  | ErrorLog => set_error_log (Some data) w
  | Other name => set_files (<[name := data]> (files w)) w
  end.

(** [open(filepath, "wb")]: the file is created, or emptied. *)
Definition open_wb (filepath : str) (w : World) : World :=
  set_content filepath [] w.

(** What a file object does when it hands bytes to its file: they replace
    the bytes from the position of the object on; a file that someone else
    has cut shorter is filled with zeros up to there. *)
Definition pwrite (content : list N) (position : nat) (data : list N) : list N :=
  take position (content ++ replicate (position - length content) 0)
  ++ data ++ drop (position + length data) content.

Definition flush_at (filepath : str) (position : nat) (data : list N) (w : World)
  : World :=
  match data with
  | [] => w
  | _ => set_content filepath
           (pwrite (default [] (content_at filepath w)) position data) w
  end.

(** ** The network and the disk, as seen by one task

    An exception is kept as its [str(e)]; only exceptions below [Exception]
    are modelled, the program cancels no task.  A response carries its
    status, the text of the [ClientResponseError] that [raise_for_status]
    raises when the status is 400 or above, the lookup of its headers, the
    chunks that [iter_chunked] delivers and the exception, if any, that ends
    the transfer behind them (a failed read or a failed write).  The file
    object of [open] keeps the bytes written to it and hands them to the
    file when it sees fit, at the latest when it is closed: after a write,
    [buffer_policy] says how many of the bytes it holds, those held before
    and the chunk, go to the file at once. *)

Record Response := {
  status : Z;
  status_error : str;
  headers_get : str → option str;
  chunks : list (list N);
  transfer_error : option str;
}.

Inductive Reply :=
| Refused (e : str)
| Replied (resp : Response).

Record Oracle := {
  session_get : str → Reply;
  open_error : str → option str;
  buffer_policy : list N → list N → nat;
}.

(** ** [download_file] *)

Definition unknown : str := lit "unknown".

Definition download_url_of (identifier : str) : str :=
  lit "https://api.pillows.su/api/download/" ++ identifier.

(** Lines 67 to 71: the name of the output file. *)
Definition filename_of (resp : Response) (identifier : str) : str :=
  match headers_get resp (lit "content-disposition") with
  | Some cd =>
      if truthy cd && contains (lit "filename=") cd
      then strip_chars [34] (strip (last_item (split (lit "filename=") cd)))
      else identifier ++ lit ".bin"
  | None => identifier ++ lit ".bin"
  end.

(** [f_out.write(chunk)].  The file object of a task is the position up to
    which it has handed bytes to its file, and the bytes it still holds:
    the chunk joins the bytes held, and as many of them as the object sees
    fit go to the file. *)
Definition write_chunk (o : Oracle) (filepath : str) (chunk : list N)
    (position : nat) (held : list N) (w : World) : nat * list N * World :=
  let k := Nat.min (buffer_policy o held chunk) (length (held ++ chunk)) in
  ((position + k)%nat, drop k (held ++ chunk),
   flush_at filepath position (take k (held ++ chunk)) w).

(** Leaving the [with] block closes the file object, which hands over what
    it still holds. *)
Definition close (filepath : str) (position : nat) (held : list N) (w : World)
  : World :=
  flush_at filepath position held w.

(** The loop over the chunks: every chunk is written, then the transfer
    ends, normally or with an exception, and the file is closed. *)
Fixpoint write_chunks (o : Oracle) (filepath : str) (cs : list (list N))
    (position : nat) (held : list N) (w : World) : World :=
  match cs with
  | [] => close filepath position held w
  | c :: cs' =>
      let '(position', held', w') := write_chunk o filepath c position held w in
      write_chunks o filepath cs' position' held' w'
  end.

(** How the [try] block is left: the value of [filename] then, and the
    exception raised, if any. *)
Record Exit := {
  exit_filename : str;
  exit_raised : option str;
}.

(** The body of the [try] statement (lines 51 to 77). *)
Definition try_body (o : Oracle) (url output_folder : str) (w : World)
  : Exit * World :=
  let filename := unknown in
  match unwrap_pillowcase_url url with
  | Some (c :: r) =>
      let real_url := c :: r in
      match ID_PATTERN_search real_url with
      | None =>
          (Build_Exit filename None, log_error filename url (lit "No file ID found") w)
      | Some identifier =>
          let download_url := download_url_of identifier in
          match session_get o download_url with
          | Refused e => (Build_Exit filename (Some e), w)
          | Replied resp =>
              if (400 <=? status resp)%Z
              then (Build_Exit filename (Some (status_error resp)), w)
              else
                let filename := filename_of resp identifier in
                let filepath := os_path_join output_folder filename in
                match open_error o filepath with
                | Some e => (Build_Exit filename (Some e), w)
                | None =>
                    (Build_Exit filename (transfer_error resp),
                     write_chunks o filepath (chunks resp) 0 []
                       (open_wb filepath w))
                end
          end
      end
  | _ =>
      (Build_Exit filename None,
       log_error filename url (lit "No pillowcase link found") w)
  end.

(** The [except] and [finally] clauses (lines 79 to 83). *)
Definition except_finally (url : str) (x : Exit) (w : World) : World :=
  progress_update
    match exit_raised x with
    | Some e => log_error (exit_filename x) url e w
    | None => w
    end.

(** One task from the moment it holds the semaphore to its end. *)
Definition download_file (o : Oracle) (url output_folder : str) (w : World)
  : World :=
  let '(x, w') := try_body o url output_folder w in
  except_finally url x w'.

(** ** The tasks under the event loop

    A task gives up control only where it awaits: at the semaphore, at
    [session.get] and between two chunks.  Between these points it runs
    alone, so its run is cut into the phases below. *)

Inductive Phase :=
| Pending
| Requesting (identifier : str)
| Streaming (filename filepath : str) (rest : list (list N)) (ending : option str)
    (position : nat) (held : list N)
| Finished.

Record Task := {
  task_url : str;
  task_oracle : Oracle;
  task_phase : Phase;
}.

Definition set_phase (p : Phase) (t : Task) : Task :=
  {| task_url := task_url t; task_oracle := task_oracle t; task_phase := p |}.

(** From the semaphore to [session.get] (lines 48 to 64). *)
Definition resolve (url : str) (w : World) : Phase * World :=
  let filename := unknown in
  match unwrap_pillowcase_url url with
  | Some (c :: r) =>
      match ID_PATTERN_search (c :: r) with
      | None =>
          (Finished,
           except_finally url (Build_Exit filename None)
             (log_error filename url (lit "No file ID found") w))
      | Some identifier => (Requesting identifier, w)
      end
  | _ =>
      (Finished,
       except_finally url (Build_Exit filename None)
         (log_error filename url (lit "No pillowcase link found") w))
  end.

(** From the answer of [session.get] to the first chunk (lines 64 to 76). *)
Definition receive (o : Oracle) (url output_folder identifier : str) (w : World)
  : Phase * World :=
  let filename := unknown in
  match session_get o (download_url_of identifier) with
  | Refused e => (Finished, except_finally url (Build_Exit filename (Some e)) w)
  | Replied resp =>
      if (400 <=? status resp)%Z
      then (Finished,
            except_finally url (Build_Exit filename (Some (status_error resp))) w)
      else
        let filename := filename_of resp identifier in
        let filepath := os_path_join output_folder filename in
        match open_error o filepath with
        | Some e => (Finished, except_finally url (Build_Exit filename (Some e)) w)
        | None =>
            (Streaming filename filepath (chunks resp) (transfer_error resp) 0 [],
             open_wb filepath w)
        end
  end.

(** One run of a task between two of its awaits.  While it streams, the
    task holds its file object.  A chunk that arrives is written to the
    object; when the stream ends, the [with] block closes the object before
    the exception, if any, gets to the handler. *)
Definition resume (output_folder : str) (t : Task) (w : World) : Phase * World :=
  match task_phase t with
  | Pending => resolve (task_url t) w
  | Requesting identifier =>
      receive (task_oracle t) (task_url t) output_folder identifier w
  | Streaming filename filepath (c :: rest) ending position held =>
      let '(position', held', w') :=
        write_chunk (task_oracle t) filepath c position held w in
      (Streaming filename filepath rest ending position' held', w')
  | Streaming filename filepath [] ending position held =>
      (Finished,
       except_finally (task_url t) (Build_Exit filename ending)
         (close filepath position held w))
  | Finished => (Finished, w)
  end.

(** A task is inside [async with semaphore], with its request under way. *)
Definition holds_slot (p : Phase) : bool :=
  match p with
  | Requesting _ | Streaming _ _ _ _ _ _ => true
  | Pending | Finished => false
  end.

Definition is_finished (p : Phase) : bool :=
  match p with Finished => true | _ => false end.

(** The event loop: the value of the semaphore, the tasks that [gather]
    waits for and the world.  [asyncio.Semaphore] lets a task in while its
    value is positive and takes one from it; leaving the [async with] block,
    by whatever way, gives one back.  Which task the loop resumes next is
    left open: any task that can go on may be the next one, which covers
    the order asyncio happens to choose. *)
Record System := {
  semaphore : nat;
  tasks : list Task;
  world : World;
}.

Definition released (p : Phase) : nat := if is_finished p then 1%nat else 0%nat.

Definition step_task (output_folder : str) (i : nat) (s : System)
  : option System :=
  match tasks s !! i with
  | None => None
  | Some t =>
      match task_phase t with
      | Finished => None
      | Pending =>
          match semaphore s with
          | O => None
          | S free =>
              let '(p, w) := resume output_folder t (world s) in
              Some {| semaphore := (free + released p)%nat;
                      tasks := <[i := set_phase p t]> (tasks s);
                      world := w |}
          end
      | _ =>
          let '(p, w) := resume output_folder t (world s) in
          Some {| semaphore := (semaphore s + released p)%nat;
                  tasks := <[i := set_phase p t]> (tasks s);
                  world := w |}
      end
  end.

Definition step (output_folder : str) (s s' : System) : Prop :=
  ∃ i, step_task output_folder i s = Some s'.

(** The number of tasks whose request is under way, and of finished ones. *)
Definition tally (f : Task → bool) (l : list Task) : nat :=
  length (filter (λ t, f t = true) l).

Definition active (s : System) : nat :=
  tally (λ t, holds_slot (task_phase t)) (tasks s).

Definition finished (s : System) : nat :=
  tally (λ t, is_finished (task_phase t)) (tasks s).

(** The invariants of the loop: every slot is either free or held by a
    task whose request is under way, and the progress bar has counted the
    finished tasks on top of where it stood. *)
Definition accounted (cap base : nat) (s : System) : Prop :=
  (semaphore s + active s = cap)%nat ∧
  progress (world s) = (base + finished s)%nat.

Definition all_finished (s : System) : Prop :=
  Forall (λ t, task_phase t = Finished) (tasks s).

(** The resumptions a task still needs, read off its oracle. *)
Definition after_reply (o : Oracle) (output_folder identifier : str) : nat :=
  match session_get o (download_url_of identifier) with
  | Refused _ => 0%nat
  | Replied resp =>
      if (400 <=? status resp)%Z then 0%nat
      else match open_error o (os_path_join output_folder
                                 (filename_of resp identifier)) with
           | Some _ => 0%nat
           | None => S (length (chunks resp))
           end
  end.

Definition steps_left (output_folder : str) (t : Task) : nat :=
  match task_phase t with
  | Pending =>
      match unwrap_pillowcase_url (task_url t) with
      | Some (c :: r) =>
          match ID_PATTERN_search (c :: r) with
          | Some identifier =>
              S (S (after_reply (task_oracle t) output_folder identifier))
          | None => 1%nat
          end
      | _ => 1%nat
      end
  | Requesting identifier =>
      S (after_reply (task_oracle t) output_folder identifier)
  | Streaming _ _ rest _ _ _ => S (length rest)
  | Finished => 0%nat
  end.

Definition remaining (output_folder : str) (s : System) : nat :=
  sum_list (steps_left output_folder <$> tasks s).

(** A schedule names the task to resume at each turn; a turn whose task
    cannot go on is passed over. *)
Fixpoint run (output_folder : str) (schedule : list nat) (s : System) : System :=
  match schedule with
  | [] => s
  | i :: rest =>
      run output_folder rest (default s (step_task output_folder i s))
  end.

Fixpoint step_first (output_folder : str) (candidates : list nat) (s : System)
  : option System :=
  match candidates with
  | [] => None
  | i :: rest =>
      match step_task output_folder i s with
      | Some s' => Some s'
      | None => step_first output_folder rest s
      end
  end.

Fixpoint drain (output_folder : str) (fuel : nat) (s : System) : System :=
  match fuel with
  | O => s
  | S fuel' =>
      match step_first output_folder (seq 0 (length (tasks s))) s with
      | Some s' => drain output_folder fuel' s'
      | None => s
      end
  end.

(** [await asyncio.gather] over the tasks: the loop resumes tasks, in the order of
    the schedule and then in any order, until none is left to resume. *)
Definition gather (output_folder : str) (schedule : list nat) (s : System)
  : System :=
  let s' := run output_folder schedule s in
  drain output_folder (remaining output_folder s') s'.

(** ** [main] *)

(** What a run is given from outside: the clock, the outcome of
    [os.makedirs], the oracle of the k-th task and the schedule. *)
Record Env := {
  timestamp : str;
  elapsed : str;
  makedirs_error : option str;
  oracles : nat → Oracle;
  schedule : list nat;
}.

(** How [main] ends: the world, the tasks it created and the exception that
    left it, if any. *)
Record Ended := {
  end_world : World;
  end_tasks : list Task;
  end_raised : option str;
}.

(** The loop as [main] sets it up: a fresh semaphore and one pending task
    for each line. *)
Definition initial_system (os : nat → Oracle) (urls : list str) (w : World)
  : System :=
  {| semaphore := MAX_CONCURRENT_DOWNLOADS;
     tasks := imap (λ k url, Build_Task url (os k) Pending) urls;
     world := w |}.

Definition main (env : Env) (input_text : str) (w : World) : Ended :=
  let urls := parse_urls input_text in
  let total_files := length urls in
  if (total_files =? 0)%nat then
    Build_Ended (print (lit "No URLs found.") w) [] None
  else
    let output_folder := os_path_join BASE_DOWNLOAD_FOLDER (timestamp env) in
    match makedirs_error env with
    | Some e => Build_Ended w [] (Some e)
    | None =>
        let w := makedirs output_folder w in
        let s :=
          gather output_folder (schedule env)
            (initial_system (oracles env) urls w) in
        let w := world s in
        let w := print ([10; 8218; 250; 214] ++ lit " All done!") w in
        let w := print ([63743; 252; 236; 197] ++ lit " Files saved in: "
                        ++ output_folder) w in
        let w := print ([8218; 232; 177] ++ lit " Total runtime: " ++ elapsed env
                        ++ lit " seconds") w in
        let w := match error_log w with
                 | Some _ => print ([8218; 246; 8224] ++ lit " Errors logged to: "
                                    ++ ERROR_LOG) w
                 | None => w
                 end in
        Build_Ended w (tasks s) None
    end.

(** Runs of the loop: any number of resumptions. *)
Definition steps (output_folder : str) : System → System → Prop :=
  rtc (step output_folder).

(** A task alone: [n] resumptions in a row. *)
Fixpoint resume_times (output_folder : str) (n : nat) (t : Task) (w : World)
  : Phase * World :=
  match n with
  | O => (task_phase t, w)
  | S n' =>
      let '(p, w') := resume output_folder t w in
      resume_times output_folder n' (set_phase p t) w'
  end.

(** ** Inputs used in the examples *)

(** [posixpath.normpath]: the path without its empty parts, its [.] parts
    and the [..] parts that take back a part before them. *)
Fixpoint norm_parts (absolute : bool) (seen parts : list str) : list str :=
  match parts with
  | [] => rev seen
  | comp :: rest =>
      if bool_decide (comp = []) || bool_decide (comp = lit ".")
      then norm_parts absolute seen rest
      else if negb (bool_decide (comp = lit ".."))
              || (negb absolute && bool_decide (seen = []))
              || bool_decide (head seen = Some (lit ".."))
      then norm_parts absolute (comp :: seen) rest
      else norm_parts absolute (tail seen) rest
  end.

Fixpoint join_slash (parts : list str) : str :=
  match parts with
  | [] => []
  | [part] => part
  | part :: rest => part ++ lit "/" ++ join_slash rest
  end.

Definition normpath (path : str) : str :=
  if negb (truthy path) then lit "."
  else
    let initial :=
      if startswith (lit "/") path
      then if startswith (lit "//") path && negb (startswith (lit "///") path)
           then 2%nat else 1%nat
      else 0%nat in
    let parts := norm_parts (negb (initial =? 0)%nat) [] (split (lit "/") path) in
    let path := replicate initial 47 ++ join_slash parts in
    if truthy path then path else lit ".".

(** No file, no directory and no links: a path names the file that its
    normal form names, and a file is known by that form. *)
Definition empty_world : World :=
  {| files := ∅; dirs := []; error_log := None; progress := 0%nat; stdout := [];
     node_of := λ path, if bool_decide (normpath path = ERROR_LOG) then ErrorLog
                        else Other (normpath path) |}.

Definition sample_link : str :=
  lit "https://pillowcase.su/f/deadbeefdeadbeefdeadbeefdeadbeef".

Definition sample_id : str := lit "deadbeefdeadbeefdeadbeefdeadbeef".

Definition sample_folder : str := lit "downloads/2024-01-01_00-00-00".

(** Headers that hold [content-disposition] only. *)
Definition only_disposition (value : str) : str → option str :=
  λ key, if bool_decide (key = lit "content-disposition") then Some value else None.

(** 200, a header naming [song.mp3] in quotes, a body in two chunks. *)
Definition song_response : Response :=
  {| status := 200; status_error := [];
     headers_get :=
       only_disposition (lit "attachment; filename=" ++ [34] ++ lit "song.mp3" ++ [34]);
     chunks := [[1; 2]; [3]]; transfer_error := None |}.

(** The same with blanks around the quoted name. *)
Definition padded_response : Response :=
  {| status := 200; status_error := [];
     headers_get :=
       only_disposition
         (lit "attachment; filename= " ++ [34] ++ lit "song.mp3" ++ [34] ++ [32; 9]);
     chunks := [[1; 2]; [3]]; transfer_error := None |}.

(** 200 without headers; the connection drops behind the first chunk. *)
Definition dropped_response : Response :=
  {| status := 200; status_error := [];
     headers_get := λ _, None;
     chunks := [[1; 2]]; transfer_error := Some (lit "Connection reset by peer") |}.

(** 404. *)
Definition missing_response : Response :=
  {| status := 404; status_error := lit "404, message='Not Found'";
     headers_get := λ _, None; chunks := []; transfer_error := None |}.

(** The same response to every request, every file opens, and the file
    objects hold their bytes until they are closed. *)
Definition answering (resp : Response) : Oracle :=
  {| session_get := λ _, Replied resp; open_error := λ _, None;
     buffer_policy := λ _ _, 0%nat |}.

(** ** Notions used to state further properties *)

(** A line break of the input file. *)
Definition is_break (c : N) : bool := (c =? 10) || (c =? 13).

(** What [parse_urls] makes of the lines of a file: the stripped lines
    that are not empty. *)
Definition stripped_lines (lines : list str) : list str :=
  strip <$> filter (λ line, truthy (strip line) = true) lines.

(** A line as [parse_urls] returns them: not empty, without a line break,
    without whitespace at either end. *)
Definition clean_line (url : str) : Prop :=
  url ≠ [] ∧
  Forall (λ c, is_break c = false) url ∧
  (∀ c r, url = c :: r → isspace c = false) ∧
  (∀ r c, url = r ++ [c] → isspace c = false).

(** The text that holds the given lines, each ended by a line feed. *)
Definition one_per_line (urls : list str) : str :=
  concat ((λ url, url ++ [10]) <$> urls).

(** [clean_line] as a test. *)
Definition clean_lineb (url : str) : bool :=
  truthy url && forallb (λ c, negb (is_break c)) url &&
  match url with c :: _ => negb (isspace c) | [] => true end &&
  match rev url with c :: _ => negb (isspace c) | [] => true end.

(** The text of the error log, empty while the file does not exist. *)
Definition log_text (w : World) : str := default [] (error_log w).

(** The order in which a task passes through its phases. *)
Definition phase_rank (p : Phase) : nat :=
  match p with
  | Pending => 0
  | Requesting _ => 1
  | Streaming _ _ _ _ _ _ => 2
  | Finished => 3
  end.

(** What no task changes from a world [w] to a later world [w']: the lines
    printed, the directories and the naming of the files stay, and an error
    log that exists keeps existing. *)
Definition left_alone (w w' : World) : Prop :=
  stdout w' = stdout w ∧
  dirs w' = dirs w ∧
  node_of w' = node_of w ∧
  (is_Some (error_log w) → is_Some (error_log w')).

(** [a.endswith("/")], as a test on the last character. *)
Definition ends_with_slash (a : str) : bool := bool_decide (last a = Some 47).

(** ** The outcome of a task

    How a task ends, read off its line and its oracle along the branches
    of [download_file]: the file it opened holds the whole body and there
    is no record; there is a record and no file was opened; or the
    transfer broke behind the chunks of [body], and there are both, the
    file and a record. *)

Inductive Outcome :=
| Written (filepath : str) (body : list N)
| Recorded (filename reason : str)
| Broken (filepath : str) (body : list N) (filename reason : str).

Definition outcome_after (o : Oracle) (output_folder identifier : str) : Outcome :=
  match session_get o (download_url_of identifier) with
  | Refused e => Recorded unknown e
  | Replied resp =>
      if (400 <=? status resp)%Z then Recorded unknown (status_error resp)
      else
        let filename := filename_of resp identifier in
        let filepath := os_path_join output_folder filename in
        match open_error o filepath with
        | Some e => Recorded filename e
        | None =>
            match transfer_error resp with
            | Some e => Broken filepath (concat (chunks resp)) filename e
            | None => Written filepath (concat (chunks resp))
            end
        end
  end.

Definition outcome (o : Oracle) (url output_folder : str) : Outcome :=
  match unwrap_pillowcase_url url with
  | Some (c :: r) =>
      match ID_PATTERN_search (c :: r) with
      | Some identifier => outcome_after o output_folder identifier
      | None => Recorded unknown (lit "No file ID found")
      end
  | _ => Recorded unknown (lit "No pillowcase link found")
  end.

(** The name and the reason of the record of an outcome, and the file of
    an outcome with its bytes. *)
Definition record_of (x : Outcome) : option (str * str) :=
  match x with
  | Written _ _ => None
  | Recorded filename reason | Broken _ _ filename reason => Some (filename, reason)
  end.

Definition file_of (x : Outcome) : option (str * list N) :=
  match x with
  | Written filepath body | Broken filepath body _ _ => Some (filepath, body)
  | Recorded _ _ => None
  end.

(** Appending the record of a line, if there is one. *)
Definition with_record (url : str) (r : option (str * str)) (w : World) : World :=
  match r with
  | Some (filename, reason) => log_error filename url reason w
  | None => w
  end.

(** The text of that record. *)
Definition record_line (url : str) (r : option (str * str)) : str :=
  match r with
  | Some (filename, reason) => error_record filename url reason
  | None => []
  end.


Definition task_outcome (output_folder : str) (t : Task) : Outcome :=
  outcome (task_oracle t) (task_url t) output_folder.

(** The text that a task adds to the error log. *)
Definition task_record (output_folder : str) (t : Task) : str :=
  record_line (task_url t) (record_of (task_outcome output_folder t)).

(** The tasks of the loop that are over. *)
Definition finished_tasks (s : System) : list Task :=
  filter (λ t, is_finished (task_phase t) = true) (tasks s).


(** A task whose phase is what its line and its oracle lead to. *)
Definition coherent (output_folder : str) (t : Task) : Prop :=
  match task_phase t with
  | Pending | Finished => True
  | Requesting identifier =>
      task_outcome output_folder t =
        outcome_after (task_oracle t) output_folder identifier
  | Streaming filename filepath rest ending position held =>
      (∃ body, file_of (task_outcome output_folder t) = Some (filepath, body)) ∧
      record_of (task_outcome output_folder t) = (λ e, (filename, e)) <$> ending
  end.

(** One resumption puts bytes in no file but the one of its task. *)
Definition own_write (x : Outcome) (w w' : World) : Prop :=
  w' = w ∨
  ∃ filepath body data, file_of x = Some (filepath, body) ∧
                        w' = set_content filepath data w.

(** The files that the tasks write, as the file system knows them. *)
Definition file_nodes (output_folder : str) (nodes : str → Node) (l : list Task)
  : list Node :=
  omap (λ t, (λ f, nodes f.1) <$> file_of (task_outcome output_folder t)) l.


(** * Properties *)

(** ** Strings *)

Section StrFacts.

Implicit Types p s a b : str.

Lemma startswith_app p s : startswith p (p ++ s) = true.
Proof. induction p as [|c p IH]; simpl; [done|]. by rewrite N.eqb_refl. Qed.

Lemma startswith_inv p s : startswith p s = true → s = p ++ drop (length p) s.
Proof.
  revert s. induction p as [|c p IH]; intros [|d s]; simpl; try done.
  intros [Hc Hp]%andb_prop. apply N.eqb_eq in Hc as ->. f_equal. by apply IH.
Qed.

Lemma startswith_iff p s : startswith p s = true ↔ ∃ r, s = p ++ r.
Proof.
  split.
  - intros H. eexists. by apply startswith_inv.
  - intros [r ->]. apply startswith_app.
Qed.

Lemma contains_iff p s : contains p s = true ↔ ∃ a b, s = a ++ p ++ b.
Proof.
  induction s as [|c s IH]; simpl.
  - rewrite orb_false_r, startswith_iff. split.
    + intros [r Hr]. by exists [], r.
    + intros (a & b & Hab). destruct a; [by exists b|done].
  - rewrite orb_true_iff, IH, startswith_iff. split.
    + intros [[r Hr]|(a & b & ->)]; [by exists [], r|by exists (c :: a), b].
    + intros ([|d a] & b & Hab); simpl in Hab.
      * left. by exists b.
      * right. exists a, b. congruence.
Qed.

Lemma contains_false p s a b : contains p s = false → s ≠ a ++ p ++ b.
Proof.
  intros Hc ->. assert (contains p (a ++ p ++ b) = true) as Ht
    by (apply contains_iff; eauto).
  congruence.
Qed.

Lemma find_none p s : find p s = None ↔ contains p s = false.
Proof.
  induction s as [|c s IH]; simpl.
  - by destruct (startswith p []).
  - destruct (startswith p (c :: s)); simpl; [done|].
    rewrite <- IH. by destruct (find p s).
Qed.

(** [find] gives the leftmost occurrence. *)
Lemma find_some p s i :
  find p s = Some i →
  s = take i s ++ p ++ drop (i + length p) s ∧
  ∀ a b, s = a ++ p ++ b → (i ≤ length a)%nat.
Proof.
  revert i. induction s as [|c s IH]; intros i; simpl.
  - destruct (startswith p []) eqn:Hp; [|done]. intros [= <-]. split; [|lia].
    simpl. by apply startswith_inv.
  - destruct (startswith p (c :: s)) eqn:Hp.
    + intros [= <-]. split; [|lia]. simpl. by apply startswith_inv.
    + destruct (find p s) as [j|] eqn:Hj; [|done]. simpl. intros [= <-].
      destruct (IH j eq_refl) as [Hs Hleft]. split.
      * simpl. f_equal. done.
      * intros [|d a] b Hab; simpl in *.
        -- rewrite Hab, startswith_app in Hp. done.
        -- injection Hab as -> ->. specialize (Hleft _ _ eq_refl). lia.
Qed.

Lemma split_upto_nonempty n sep s : split_upto n sep s ≠ [].
Proof. destruct n; simpl; [done|]. by destruct (find sep s). Qed.

Lemma last_item_cons x l : l ≠ [] → last_item (x :: l) = last_item l.
Proof. by destruct l. Qed.

(** The last piece of [split] is the text behind the last occurrence of
    the separator. *)
Lemma split_upto_last sep n s pre suf :
  unbordered sep → sep ≠ [] → (length s ≤ n)%nat →
  s = pre ++ sep ++ suf → contains sep suf = false →
  last_item (split_upto n sep s) = suf.
Proof.
  intros Hub Hne. revert s pre.
  induction n as [|n IH]; intros s pre Hlen Hs Hsuf.
  - subst s. destruct pre, sep; simpl in *; done || lia.
  - simpl. destruct (find sep s) as [i|] eqn:Hfind.
    2: { apply find_none in Hfind. by eapply contains_false in Hfind. }
    apply find_some in Hfind as [Hi Hleft].
    specialize (Hleft _ _ Hs).
    rewrite last_item_cons by apply split_upto_nonempty.
    set (rest := drop (i + length sep) s) in *.
    assert (length sep ≠ 0%nat) by by destruct sep.
    assert (length rest < length s)%nat.
    { unfold rest. rewrite length_drop.
      assert (length s = (length pre + (length sep + length suf))%nat)
        by (rewrite Hs, !length_app; lia).
      lia. }
    assert (length (take i s) = i) as Htake.
    { rewrite length_take. assert (length s = (length pre + (length sep + length suf))%nat)
        by (rewrite Hs, !length_app; lia). lia. }
    assert (∀ n', last_item (split_upto n' sep suf) = suf) as Hdone.
    { intros [|n']; simpl; [done|]. apply find_none in Hsuf. by rewrite Hsuf. }
    rewrite Hs in Hi at 1.
    apply app_eq_inv in Hi as [(k & Hk & Hrest)|(k & Hk & Hrest)].
    + destruct k as [|c k].
      { (* it is the last occurrence *)
        simpl in Hrest. apply app_inv_head in Hrest. by rewrite Hrest. }
      apply app_eq_inv in Hrest as [(k' & Hk' & Hrest)|(k' & Hk' & Hrest)].
      * (* the two would overlap: an end [k'] of [sep] starts [sep] *)
        assert (length k' < length sep)%nat
          by (rewrite Hk', length_app; simpl; lia).
        assert (∃ z, sep = k' ++ z) as [z Hz].
        { assert (take (length k') (sep ++ suf) = take (length k') (k' ++ rest))
            as Ht by by rewrite Hrest.
          rewrite take_app_length, take_app_le in Ht by lia.
          exists (drop (length k') sep). rewrite <- Ht at 1. by rewrite take_drop. }
        destruct (Hub _ _ _ Hk' Hz) as [?| ->]; [done|].
        simpl in Hrest. apply (IH rest []); [lia|by rewrite <- Hrest|done].
      * (* it ends before the last occurrence starts *)
        apply (IH rest k'); [lia|done|done].
    + (* the occurrence found cannot start behind [pre] *)
      assert (k = []) as ->.
      { apply length_zero_iff_nil. rewrite Hk, length_app in Htake. lia. }
      simpl in Hrest. apply app_inv_head in Hrest. by rewrite <- Hrest.
Qed.

(** The bound that [split] gives to [split_upto] is never used up: any
    larger one yields the same pieces. *)
Lemma split_upto_enough sep n m s :
  sep ≠ [] → (length s ≤ n)%nat → (length s ≤ m)%nat →
  split_upto n sep s = split_upto m sep s.
Proof.
  intros Hne. revert m s. induction n as [|n IH]; intros m s Hn Hm.
  - assert (s = []) as -> by (apply length_zero_iff_nil; lia).
    destruct m, sep; simpl; done.
  - destruct m as [|m].
    { assert (s = []) as -> by (apply length_zero_iff_nil; lia).
      destruct sep; simpl; done. }
    simpl. destruct (find sep s) as [i|] eqn:Hfind; [|done].
    apply find_some in Hfind as [Hi _].
    assert (length sep ≠ 0%nat) by by destruct sep.
    assert (length (drop (i + length sep) s) < length s)%nat.
    { apply (f_equal length) in Hi. rewrite !length_app in Hi.
      rewrite length_drop. lia. }
    f_equal. apply IH; lia.
Qed.

Lemma split_last sep s pre suf :
  unbordered sep → sep ≠ [] →
  s = pre ++ sep ++ suf → contains sep suf = false →
  last_item (split sep s) = suf.
Proof. intros. by eapply split_upto_last. Qed.

(** What stripping removes. *)
Lemma lstrip_by_spec f s :
  ∃ a, s = a ++ lstrip_by f s ∧ forallb f a = true ∧
       (∀ c r, lstrip_by f s = c :: r → f c = false).
Proof.
  induction s as [|c s (a & Ha & Hfa & Hhd)]; simpl.
  - by exists [].
  - destruct (f c) eqn:Hc.
    + exists (c :: a). simpl. rewrite Hc, Hfa. split; [congruence|done].
    + exists []. split; [done|]. split; [done|]. by intros ? ? [= <- <-].
Qed.

Lemma strip_by_spec f s :
  ∃ a b, s = a ++ strip_by f s ++ b ∧
         forallb f a = true ∧ forallb f b = true ∧
         (∀ c r, strip_by f s = c :: r → f c = false) ∧
         (∀ r c, strip_by f s = r ++ [c] → f c = false).
Proof.
  unfold strip_by, rstrip_by.
  destruct (lstrip_by_spec f s) as (a & Ha & Hfa & Hhd).
  set (t := lstrip_by f s) in *.
  destruct (lstrip_by_spec f (rev t)) as (b & Hb & Hfb & Htl).
  set (u := lstrip_by f (rev t)) in *.
  assert (t = rev u ++ rev b) as Ht.
  { rewrite <- rev_app_distr, <- Hb. by rewrite rev_involutive. }
  exists a, (rev b). split; [by rewrite <- Ht|]. split; [done|].
  split; [by rewrite forallb_forall in *; intros x Hx%in_rev; auto|].
  split.
  - intros c r Hcr. apply (Hhd c (r ++ rev b)). by rewrite Ht, Hcr.
  - intros r c Hrc. apply (Htl c (rev r)).
    rewrite <- (rev_involutive u), Hrc, rev_app_distr. done.
Qed.

End StrFacts.

(** ** Regular expressions *)

Section ReFacts.

Implicit Types s m : str.

Lemma hex32_at_some s m :
  Re.hex32_at s = Some m →
  m = take 32 s ∧ length m = 32%nat ∧ forallb Re.hex_lower m = true.
Proof.
  unfold Re.hex32_at.
  destruct (length (take 32 s) =? 32)%nat eqn:Hl; simpl; [|done].
  destruct (forallb Re.hex_lower (take 32 s)) eqn:Hh; [|done].
  intros [= <-]. by apply Nat.eqb_eq in Hl.
Qed.

Lemma hex32_at_exact m s :
  length m = 32%nat → forallb Re.hex_lower m = true →
  Re.hex32_at (m ++ s) = Some m.
Proof.
  intros Hl Hh. unfold Re.hex32_at.
  assert (take 32 (m ++ s) = m) as -> by (rewrite <- Hl; apply take_app_length).
  by rewrite Hl, Hh.
Qed.

(** A character outside the class among the first 32 rules a match out. *)
Lemma hex32_at_bad s k c :
  s !! k = Some c → (k < 32)%nat → Re.hex_lower c = false →
  Re.hex32_at s = None.
Proof.
  intros Hk Hlt Hc. destruct (Re.hex32_at s) as [m|] eqn:Hm; [|done].
  apply hex32_at_some in Hm as (-> & _ & Hall).
  rewrite forallb_forall in Hall.
  assert (take 32 s !! k = Some c) as Hin by by rewrite lookup_take_lt.
  apply list_elem_of_lookup_2, list_elem_of_In, Hall in Hin. congruence.
Qed.

(** [search] succeeds exactly at the leftmost position that matches. *)
Lemma search_some at_head s m :
  Re.search at_head s = Some m →
  ∃ k, at_head (drop k s) = Some m ∧
       ∀ j, (j < k)%nat → at_head (drop j s) = None.
Proof.
  induction s as [|c s IH]; simpl.
  - destruct (at_head []) eqn:H0; [|done]. intros [= <-].
    exists 0%nat. split; [done|lia].
  - destruct (at_head (c :: s)) eqn:H0.
    + intros [= <-]. exists 0%nat. split; [done|lia].
    + intros (k & Hk & Hbefore)%IH. exists (S k). split; [done|].
      intros [|j] Hj; [done|]. apply Hbefore. lia.
Qed.

Lemma search_none at_head s :
  Re.search at_head s = None → ∀ k, at_head (drop k s) = None.
Proof.
  induction s as [|c s IH]; simpl.
  - destruct (at_head []) eqn:H0; [done|]. intros _ k. by rewrite drop_nil.
  - destruct (at_head (c :: s)) eqn:H0; [done|].
    intros Hs [|k]; [done|]. by apply IH.
Qed.

Lemma search_skip at_head pre s :
  (∀ k, (k < length pre)%nat → at_head (drop k (pre ++ s)) = None) →
  Re.search at_head (pre ++ s) = Re.search at_head s.
Proof.
  induction pre as [|c pre IH]; intros Hnone; [done|].
  pose proof (Hnone 0%nat ltac:(simpl; lia)) as H0. simpl in H0.
  simpl. rewrite H0.
  apply IH. intros k Hk. apply (Hnone (S k)). simpl. lia.
Qed.

Lemma lit_hex32_at_some prefix s link :
  Re.lit_hex32_at prefix s = Some link →
  ∃ m r, link = prefix ++ m ∧ s = link ++ r ∧
         length m = 32%nat ∧ forallb Re.hex_lower m = true.
Proof.
  unfold Re.lit_hex32_at.
  destruct (startswith prefix s) eqn:Hp; [|done].
  apply startswith_inv in Hp.
  destruct (Re.hex32_at (drop (length prefix) s)) as [m|] eqn:Hm; [|done].
  intros [= <-]. apply hex32_at_some in Hm as (Hm & Hl & Hh).
  exists m, (drop 32 (drop (length prefix) s)). repeat split; try done.
  rewrite <- app_assoc, Hm, take_drop. done.
Qed.

End ReFacts.

(** ** The resolver *)

Section Resolver.

Implicit Types url link m : str.

(** What the pattern of the second branch finds: a link of the shape
    [https://pillowcase.su/f/] and 32 characters of [[a-f0-9]], as it
    stands in the line. *)
Lemma link_search_some url link :
  link_search url = Some link →
  ∃ m a b, link = lit "https://pillowcase.su/f/" ++ m ∧
           length m = 32%nat ∧ forallb Re.hex_lower m = true ∧
           url = a ++ link ++ b.
Proof.
  intros (k & Hk & _)%search_some.
  apply lit_hex32_at_some in Hk as (m & r & Hlink & Hdrop & Hl & Hh).
  exists m, (take k url), r. repeat split; try done.
  by rewrite <- Hdrop, take_drop.
Qed.

(** Such a link holds the path segment that the first branch looks for,
    so the second branch never gets to answer. *)
Lemma link_search_shadowed url :
  contains (lit "pillowcase.su/f/") url = false → link_search url = None.
Proof.
  intros Hc. destruct (link_search url) as [link|] eqn:Hl; [|done].
  apply link_search_some in Hl as (m & a & b & -> & _ & _ & Hurl).
  exfalso. eapply (contains_false _ _ (a ++ lit "https://") (m ++ b)); [done|].
  rewrite Hurl, <- !app_assoc. done.
Qed.

Lemma unwrap_pillowcase_url_nonempty url link :
  unwrap_pillowcase_url url = Some link → link ≠ [].
Proof.
  unfold unwrap_pillowcase_url.
  destruct (contains _ url) eqn:Hc.
  - intros [= <-] ->. done.
  - rewrite link_search_shadowed; done.
Qed.

End Resolver.

(** ** The translator *)

Section Translator.

Implicit Types url link identifier : str.

Lemma search_hit at_head s m :
  at_head s = Some m → Re.search at_head s = Some m.
Proof. intros H. destruct s; simpl; by rewrite H. Qed.

Lemma search_is_some at_head s k m :
  at_head (drop k s) = Some m → is_Some (Re.search at_head s).
Proof.
  revert k. induction s as [|c s IH]; intros k Hk; simpl.
  - rewrite drop_nil in Hk. rewrite Hk. eauto.
  - destruct (at_head (c :: s)) eqn:H0; [eauto|].
    destruct k as [|k]; [simpl in Hk; congruence|]. by eapply IH.
Qed.

(** What [ID_PATTERN.search] returns: the leftmost run of 32 characters
    of [[a-f0-9]]. *)
Lemma ID_PATTERN_search_some s identifier :
  ID_PATTERN_search s = Some identifier →
  length identifier = 32%nat ∧ forallb Re.hex_lower identifier = true ∧
  ∃ a b, s = a ++ identifier ++ b ∧
         ∀ j, (j < length a)%nat → Re.hex32_at (drop j s) = None.
Proof.
  intros (k & Hk & Hbefore)%search_some.
  assert (k ≤ length s)%nat.
  { destruct (decide (k ≤ length s)%nat); [done|].
    rewrite drop_ge in Hk by lia. done. }
  apply hex32_at_some in Hk as (Hid & Hl & Hh). repeat split; try done.
  exists (take k s), (drop 32 (drop k s)). split.
  - by rewrite Hid, take_drop, take_drop.
  - intros j Hj. apply Hbefore. rewrite length_take in Hj. lia.
Qed.

(** In a link cut out by the second branch the search finds the
    identifier behind [/f/]. *)
Lemma ID_PATTERN_search_link m :
  length m = 32%nat → forallb Re.hex_lower m = true →
  ID_PATTERN_search (lit "https://pillowcase.su/f/" ++ m) = Some m.
Proof.
  intros Hl Hh. unfold ID_PATTERN_search. rewrite search_skip.
  - apply search_hit. rewrite <- (app_nil_r m) at 1. by apply hex32_at_exact.
  - intros k Hk. change (length (lit "https://pillowcase.su/f/")) with 24%nat in Hk.
    apply (hex32_at_bad _ (23 - k) 47); [|lia|done].
    rewrite lookup_drop, lookup_app_l by (simpl; lia).
    replace (k + (23 - k))%nat with 23%nat by lia. done.
Qed.

End Translator.

(** ** One task, step by step *)

Section TaskFacts.

Context (o : Oracle) (url output_folder : str).

Lemma download_file_unusable w :
  unwrap_pillowcase_url url = None →
  download_file o url output_folder w =
    progress_update (log_error unknown url (lit "No pillowcase link found") w).
Proof. intros Hu. unfold download_file, try_body. by rewrite Hu. Qed.

Lemma download_file_no_identifier w link :
  unwrap_pillowcase_url url = Some link →
  ID_PATTERN_search link = None →
  download_file o url output_folder w =
    progress_update (log_error unknown url (lit "No file ID found") w).
Proof.
  intros Hu Hid. pose proof (unwrap_pillowcase_url_nonempty _ _ Hu).
  unfold download_file, try_body. rewrite Hu.
  destruct link as [|c r]; [done|]. by rewrite Hid.
Qed.

(** The [try] block once the line is resolved and translated. *)
Lemma try_body_translated w link identifier :
  unwrap_pillowcase_url url = Some link →
  ID_PATTERN_search link = Some identifier →
  try_body o url output_folder w =
    match session_get o (download_url_of identifier) with
    | Refused e => (Build_Exit unknown (Some e), w)
    | Replied resp =>
        if (400 <=? status resp)%Z
        then (Build_Exit unknown (Some (status_error resp)), w)
        else
          let filename := filename_of resp identifier in
          let filepath := os_path_join output_folder filename in
          match open_error o filepath with
          | Some e => (Build_Exit filename (Some e), w)
          | None =>
              (Build_Exit filename (transfer_error resp),
               write_chunks o filepath (chunks resp) 0 [] (open_wb filepath w))
          end
    end.
Proof.
  intros Hu Hid. pose proof (unwrap_pillowcase_url_nonempty _ _ Hu).
  unfold try_body. rewrite Hu.
  destruct link as [|c r]; [done|]. by rewrite Hid.
Qed.

Lemma resolve_translated w link identifier :
  unwrap_pillowcase_url url = Some link →
  ID_PATTERN_search link = Some identifier →
  resolve url w = (Requesting identifier, w).
Proof.
  intros Hu Hid. pose proof (unwrap_pillowcase_url_nonempty _ _ Hu).
  unfold resolve. rewrite Hu.
  destruct link as [|c r]; [done|]. by rewrite Hid.
Qed.

(** Putting bytes behind a path. *)
Lemma node_of_set_content path data w :
  node_of (set_content path data w) = node_of w.
Proof. unfold set_content. by destruct (path_node w path). Qed.

Lemma path_node_ext w w' : node_of w' = node_of w → path_node w' = path_node w.
Proof. unfold path_node. by intros ->. Qed.

Lemma path_node_set_content path data w :
  path_node (set_content path data w) = path_node w.
Proof. apply path_node_ext, node_of_set_content. Qed.

Lemma content_at_set_content path data w :
  content_at path (set_content path data w) = Some data.
Proof.
  unfold content_at. rewrite path_node_set_content. unfold set_content.
  destruct (path_node w path) as [|name]; [done|]. simpl.
  by rewrite lookup_insert_eq.
Qed.

Lemma set_content_set_content path data data' w :
  set_content path data' (set_content path data w) = set_content path data' w.
Proof.
  unfold set_content at 1. rewrite path_node_set_content. unfold set_content.
  destruct (path_node w path) as [|name]; [done|].
  unfold set_files. simpl. by rewrite insert_insert_eq.
Qed.

Lemma set_content_same path data w :
  content_at path w = Some data → set_content path data w = w.
Proof.
  unfold content_at, set_content. destruct (path_node w path) as [|name].
  - intros <-. by destruct w.
  - intros Hold. unfold set_files. rewrite insert_id by done. by destruct w.
Qed.

Lemma progress_set_content path data w :
  progress (set_content path data w) = progress w.
Proof. unfold set_content. by destruct (path_node w path). Qed.

Lemma progress_open_wb path w : progress (open_wb path w) = progress w.
Proof. apply progress_set_content. Qed.

Lemma progress_flush_at path position data w :
  progress (flush_at path position data w) = progress w.
Proof. destruct data; [done|]. apply progress_set_content. Qed.

Lemma progress_except_finally a x w :
  progress (except_finally a x w) = S (progress w).
Proof. unfold except_finally. by destruct (exit_raised x). Qed.

Lemma pwrite_end content data :
  pwrite content (length content) data = content ++ data.
Proof.
  unfold pwrite. rewrite Nat.sub_diag. simpl replicate.
  rewrite app_nil_r, take_ge, drop_ge by lia.
  by rewrite app_nil_r.
Qed.

Lemma flush_at_end filepath data written w :
  content_at filepath w = Some written →
  flush_at filepath (length written) data w =
    set_content filepath (written ++ data) w.
Proof.
  intros Hw. destruct data as [|c data].
  - by rewrite app_nil_r, set_content_same.
  - unfold flush_at. rewrite Hw. simpl default. by rewrite pwrite_end.
Qed.

(** A file object that alone writes its file leaves in it what it was
    given, however it held the bytes back. *)
Lemma write_chunks_spec filepath cs position held written w :
  content_at filepath w = Some written → position = length written →
  write_chunks o filepath cs position held w =
    set_content filepath (written ++ held ++ concat cs) w.
Proof.
  revert position held written w.
  induction cs as [|c cs IH]; intros position held written w Hw ->.
  - simpl. unfold close. by rewrite app_nil_r, flush_at_end.
  - cbn [write_chunks]. unfold write_chunk.
    set (k := Nat.min (buffer_policy o held c) (length (held ++ c))).
    assert (length (take k (held ++ c)) = k) as Hk
      by (rewrite length_take; unfold k; lia).
    rewrite (flush_at_end _ _ _ _ Hw).
    rewrite (IH _ _ (written ++ take k (held ++ c))).
    + rewrite set_content_set_content. simpl concat.
      rewrite <- (app_assoc written), (app_assoc (take k _)), take_drop.
      by rewrite <- !app_assoc.
    + apply content_at_set_content.
    + rewrite length_app. lia.
Qed.

Lemma write_chunks_open_wb filepath cs w :
  write_chunks o filepath cs 0 [] (open_wb filepath w) =
    set_content filepath (concat cs) w.
Proof.
  unfold open_wb. rewrite (write_chunks_spec _ _ _ _ []).
  - by rewrite set_content_set_content.
  - apply content_at_set_content.
  - done.
Qed.

End TaskFacts.

(** ** The claims about the resolver and the translator *)

(** C9.  A line that holds the path segment [pillowcase.su/f/] is its own
    canonical link: the resolver returns it as it is. *)
Theorem resolver_keeps_canonical_link (url : str) :
  contains (lit "pillowcase.su/f/") url = true →
  unwrap_pillowcase_url url = Some url.
Proof. intros Hc. unfold unwrap_pillowcase_url. by rewrite Hc. Qed.

Lemma resolver_keeps_canonical_link_witness :
  contains (lit "pillowcase.su/f/") sample_link = true ∧
  unwrap_pillowcase_url sample_link = Some sample_link.
Proof.
  split; [reflexivity|].
  apply (resolver_keeps_canonical_link sample_link). reflexivity.
Defined.

(** C10.  A link that the pattern of the extraction branch cuts out of a
    line always holds an identifier, the 32 characters behind [/f/], so
    the search of the translator succeeds on it; and a task given such a
    line goes on to its request instead of logging [No file ID found]. *)
Theorem extracted_link_has_identifier (url link : str) :
  link_search url = Some link →
  (∃ identifier,
      ID_PATTERN_search link = Some identifier ∧
      link = lit "https://pillowcase.su/f/" ++ identifier) ∧
  (∀ w, ∃ identifier, resolve url w = (Requesting identifier, w)).
Proof.
  intros Hlink.
  destruct (link_search_some _ _ Hlink) as (m & a & b & -> & Hl & Hh & Hurl).
  pose proof (ID_PATTERN_search_link m Hl Hh) as Hid.
  split; [by exists m|].
  intros w. unfold resolve.
  destruct (contains (lit "pillowcase.su/f/") url) eqn:Hc.
  2: { apply link_search_shadowed in Hc. congruence. }
  unfold unwrap_pillowcase_url. rewrite Hc.
  assert (is_Some (ID_PATTERN_search url)) as [identifier Hfound].
  { apply (search_is_some _ _ (length a + 24) m).
    rewrite Hurl at 1. rewrite <- drop_drop, drop_app_length.
    rewrite <- app_assoc.
    change 24%nat with (length (lit "https://pillowcase.su/f/")).
    rewrite drop_app_length. by apply hex32_at_exact. }
  destruct url as [|c r]; [by destruct a|].
  rewrite Hfound. by exists identifier.
Qed.

Lemma extracted_link_has_identifier_witness :
  link_search (lit "mirror: " ++ sample_link ++ lit " (ok)") = Some sample_link ∧
  ∃ identifier,
    ID_PATTERN_search sample_link = Some identifier ∧
    sample_link = lit "https://pillowcase.su/f/" ++ identifier.
Proof.
  split; [reflexivity|].
  apply (extracted_link_has_identifier
           (lit "mirror: " ++ sample_link ++ lit " (ok)") sample_link).
  reflexivity.
Defined.

(** C3.  The policy of the resolver: a line that holds the path segment is
    the link; otherwise the link is what the pattern
    [https://pillowcase.su/f/] with 32 characters of [[a-f0-9]] finds in
    the line; otherwise there is none, and the task appends the record
    with the name [unknown] and the reason [No pillowcase link found]. *)
Theorem resolver_policy (url : str) :
  unwrap_pillowcase_url url =
    (if contains (lit "pillowcase.su/f/") url then Some url else link_search url) ∧
  (∀ link, link_search url = Some link →
     ∃ m a b, link = lit "https://pillowcase.su/f/" ++ m ∧
              length m = 32%nat ∧ forallb Re.hex_lower m = true ∧
              url = a ++ link ++ b) ∧
  (unwrap_pillowcase_url url = None →
     ∀ o output_folder w,
       download_file o url output_folder w =
         progress_update
           (log_error (lit "unknown") url (lit "No pillowcase link found") w)).
Proof.
  split; [|split].
  - unfold unwrap_pillowcase_url. by destruct (contains _ url), (link_search url).
  - apply link_search_some.
  - intros Hu o output_folder w. by apply download_file_unusable.
Qed.

Lemma resolver_policy_witness :
  unwrap_pillowcase_url (lit "not a valid url at all") = None ∧
  error_log (download_file (answering song_response)
               (lit "not a valid url at all") sample_folder empty_world) =
    Some (lit "unknown" ++ [9] ++ lit "not a valid url at all" ++ [9]
          ++ lit "No pillowcase link found" ++ [10]).
Proof.
  split; [reflexivity|].
  rewrite (proj2 (proj2 (resolver_policy (lit "not a valid url at all")))
             eq_refl (answering song_response) sample_folder empty_world).
  reflexivity.
Defined.

(** The reason that the specification names for an unusable line is not
    the one the program writes. *)
Lemma resolver_reason_counterexample :
  unwrap_pillowcase_url (lit "not a valid url at all") = None ∧
  error_log (download_file (answering song_response)
               (lit "not a valid url at all") sample_folder empty_world) ≠
    Some (error_record (lit "unknown") (lit "not a valid url at all")
            (lit "no source link found")).
Proof. split; [reflexivity|]. vm_compute. discriminate. Qed.

(** C4.  The translator on a canonical link: the identifier is the leftmost
    run of 32 characters of [[a-f0-9]] in the link, and the one request of
    the task goes to [https://api.pillows.su/api/download/] followed by it;
    without such a run the task appends the record with the name [unknown]
    and the reason [No file ID found]. *)
Theorem translator_contract (o : Oracle) (url output_folder link : str) (w : World) :
  unwrap_pillowcase_url url = Some link →
  match ID_PATTERN_search link with
  | Some identifier =>
      length identifier = 32%nat ∧
      forallb Re.hex_lower identifier = true ∧
      (∃ a b, link = a ++ identifier ++ b ∧
              ∀ j, (j < length a)%nat → Re.hex32_at (drop j link) = None) ∧
      download_url_of identifier =
        lit "https://api.pillows.su/api/download/" ++ identifier ∧
      resolve url w = (Requesting identifier, w) ∧
      ∀ o', session_get o' (download_url_of identifier) =
              session_get o (download_url_of identifier) →
            (∀ path, open_error o' path = open_error o path) →
            download_file o' url output_folder w =
              download_file o url output_folder w
  | None =>
      download_file o url output_folder w =
        progress_update (log_error (lit "unknown") url (lit "No file ID found") w)
  end.
Proof.
  intros Hu. destruct (ID_PATTERN_search link) as [identifier|] eqn:Hid.
  - destruct (ID_PATTERN_search_some _ _ Hid) as (Hl & Hh & Hocc).
    repeat split; try done.
    + by eapply resolve_translated.
    + intros o' Hget Hopen. unfold download_file.
      rewrite !(try_body_translated _ _ _ _ _ _ Hu Hid), Hget.
      destruct (session_get o _) as [e|resp]; [done|].
      destruct (400 <=? status resp)%Z; [done|]. cbv zeta. rewrite Hopen.
      destruct (open_error o _); [done|]. by rewrite !write_chunks_open_wb.
  - by eapply download_file_no_identifier.
Qed.

Lemma translator_contract_witness :
  (unwrap_pillowcase_url sample_link = Some sample_link ∧
   ID_PATTERN_search sample_link = Some sample_id ∧
   download_url_of sample_id =
     lit "https://api.pillows.su/api/download/deadbeefdeadbeefdeadbeefdeadbeef" ∧
   resolve sample_link empty_world = (Requesting sample_id, empty_world)) ∧
  (unwrap_pillowcase_url (lit "pillowcase.su/f/xyz") = Some (lit "pillowcase.su/f/xyz") ∧
   download_file (answering song_response) (lit "pillowcase.su/f/xyz")
     sample_folder empty_world =
     progress_update
       (log_error (lit "unknown") (lit "pillowcase.su/f/xyz") (lit "No file ID found")
          empty_world)).
Proof.
  split.
  - pose proof (translator_contract (answering song_response) sample_link
                  sample_folder sample_link empty_world eq_refl) as H.
    change (ID_PATTERN_search sample_link) with (Some sample_id) in H.
    destruct H as (_ & _ & _ & Hurl & Hres & _).
    split; [reflexivity|]. split; [reflexivity|]. split; [exact Hurl|exact Hres].
  - split; [reflexivity|].
    exact (translator_contract (answering song_response) (lit "pillowcase.su/f/xyz")
             sample_folder (lit "pillowcase.su/f/xyz") empty_world eq_refl).
Defined.

(** The reason that the specification names for a link without identifier
    differs from the one the program writes in its first letter. *)
Lemma translator_reason_counterexample :
  unwrap_pillowcase_url (lit "pillowcase.su/f/xyz") = Some (lit "pillowcase.su/f/xyz") ∧
  ID_PATTERN_search (lit "pillowcase.su/f/xyz") = None ∧
  error_log (download_file (answering song_response) (lit "pillowcase.su/f/xyz")
               sample_folder empty_world) ≠
    Some (error_record (lit "unknown") (lit "pillowcase.su/f/xyz")
            (lit "no file ID found")).
Proof. split; [reflexivity|]. split; [reflexivity|]. vm_compute. discriminate. Qed.

(** ** The claims about the fetcher *)

Lemma marker_unbordered : unbordered (lit "filename=").
Proof.
  intros x y z Hxy Hyz. vm_compute in Hxy, Hyz.
  do 10 (destruct x as [|? x]; [simplify_eq/=; auto|]).
  simplify_eq/=.
Qed.

(** C6.  A response whose status is 400 or above: [raise_for_status] raises,
    the handler of the task catches it, the record with the name [unknown]
    and the text of the HTTP error is appended, no file is touched, and in
    the loop only this task changes, to finished, giving its slot back. *)
Theorem http_failure_is_logged (o : Oracle) (url output_folder link identifier : str)
    (resp : Response) (w : World) :
  unwrap_pillowcase_url url = Some link →
  ID_PATTERN_search link = Some identifier →
  session_get o (download_url_of identifier) = Replied resp →
  (400 ≤ status resp)%Z →
  download_file o url output_folder w =
    progress_update (log_error (lit "unknown") url (status_error resp) w) ∧
  files (download_file o url output_folder w) = files w ∧
  error_log (download_file o url output_folder w) =
    Some (default [] (error_log w)
          ++ lit "unknown" ++ [9] ++ url ++ [9] ++ status_error resp ++ [10]) ∧
  ∀ s i,
    tasks s !! i = Some (Build_Task url o (Requesting identifier)) →
    world s = w →
    step_task output_folder i s =
      Some {| semaphore := S (semaphore s);
              tasks := <[i := Build_Task url o Finished]> (tasks s);
              world := progress_update
                         (log_error (lit "unknown") url (status_error resp) w) |}.
Proof.
  intros Hu Hid Hget Hst.
  assert (download_file o url output_folder w =
            progress_update (log_error (lit "unknown") url (status_error resp) w))
    as Hdl.
  { unfold download_file.
    rewrite (try_body_translated _ _ _ _ _ _ Hu Hid), Hget.
    apply Z.leb_le in Hst. by rewrite Hst. }
  split; [done|]. rewrite Hdl. split; [done|]. split; [done|].
  intros s i Hi Hw. unfold step_task. rewrite Hi. simpl.
  unfold resume, receive. simpl. rewrite Hget.
  apply Z.leb_le in Hst. rewrite Hst, Hw. simpl.
  by rewrite Nat.add_1_r.
Qed.

Lemma http_failure_is_logged_witness :
  error_log (download_file (answering missing_response) sample_link
               sample_folder empty_world) =
    Some (lit "unknown" ++ [9] ++ sample_link ++ [9]
          ++ lit "404, message='Not Found'" ++ [10]) ∧
  files (download_file (answering missing_response) sample_link
           sample_folder empty_world) = ∅.
Proof.
  pose proof (http_failure_is_logged (answering missing_response) sample_link
                sample_folder sample_link sample_id missing_response empty_world
                eq_refl eq_refl eq_refl ltac:(vm_compute; discriminate))
    as (_ & Hfiles & Hlog & _).
  split; [exact Hlog|exact Hfiles].
Defined.

(** C5.  On a response whose status lets [raise_for_status] pass, the name
    of the output file: with a [content-disposition] header that holds
    [filename=], the text behind the last [filename=], first without the
    whitespace around it, all of it, so that what is left neither starts
    nor ends with whitespace, then without the double quotes around that,
    all of them; with no such header, or one without the marker, the
    identifier followed by [.bin]. *)
Theorem filename_from_response (o : Oracle) (url output_folder link identifier : str)
    (resp : Response) (w : World) :
  unwrap_pillowcase_url url = Some link →
  ID_PATTERN_search link = Some identifier →
  session_get o (download_url_of identifier) = Replied resp →
  (status resp < 400)%Z →
  let name := exit_filename (try_body o url output_folder w).1 in
  (∀ cd pre suf,
     headers_get resp (lit "content-disposition") = Some cd →
     cd = pre ++ lit "filename=" ++ suf →
     contains (lit "filename=") suf = false →
     name = strip_chars [34] (strip suf) ∧
     ∃ ws1 q1 q2 ws2,
       suf = ws1 ++ q1 ++ name ++ q2 ++ ws2 ∧
       forallb isspace ws1 = true ∧ forallb isspace ws2 = true ∧
       (∀ c r, q1 ++ name ++ q2 = c :: r → isspace c = false) ∧
       (∀ r c, q1 ++ name ++ q2 = r ++ [c] → isspace c = false) ∧
       Forall (λ c, c = 34) q1 ∧ Forall (λ c, c = 34) q2 ∧
       (∀ c r, name = c :: r → c ≠ 34) ∧
       (∀ r c, name = r ++ [c] → c ≠ 34)) ∧
  (∀ cd,
     headers_get resp (lit "content-disposition") = Some cd →
     contains (lit "filename=") cd = false →
     name = identifier ++ lit ".bin") ∧
  (headers_get resp (lit "content-disposition") = None →
   name = identifier ++ lit ".bin").
Proof.
  intros Hu Hid Hget Hst name.
  assert (name = filename_of resp identifier) as ->.
  { unfold name. rewrite (try_body_translated _ _ _ _ _ _ Hu Hid), Hget.
    apply Z.leb_gt in Hst. rewrite Hst. simpl.
    by destruct (open_error o _). }
  unfold filename_of. split; [|split].
  - intros cd pre suf -> Hcd Hsuf.
    assert (contains (lit "filename=") cd = true) as ->
      by (apply contains_iff; eauto).
    assert (truthy cd = true) as ->.
    { unfold truthy. rewrite bool_decide_eq_false_2; [done|].
      rewrite Hcd. by destruct pre. }
    simpl.
    rewrite (split_last _ _ pre suf marker_unbordered ltac:(done) Hcd Hsuf).
    split; [done|].
    destruct (strip_by_spec isspace suf)
      as (ws1 & ws2 & Hws & Hw1 & Hw2 & Hshd & Hstl).
    fold (strip suf) in Hws, Hshd, Hstl.
    destruct (strip_by_spec (λ c, bool_decide (c ∈ [34])) (strip suf))
      as (q1 & q2 & Hq & Hq1 & Hq2 & Hhd & Htl).
    fold (strip_chars [34] (strip suf)) in Hq, Hhd, Htl.
    exists ws1, q1, q2, ws2.
    split; [rewrite Hws at 1; f_equal; rewrite Hq at 1; by rewrite <- !app_assoc|].
    split; [done|]. split; [done|].
    split; [by rewrite <- Hq|]. split; [by rewrite <- Hq|].
    assert (∀ q, forallb (λ c, bool_decide (c ∈ [34])) q = true →
                 Forall (λ c, c = 34) q) as Hquotes.
    { intros q Hall. rewrite forallb_forall in Hall. apply Forall_forall.
      intros c Hc%list_elem_of_In%Hall%bool_decide_eq_true_1.
      by apply list_elem_of_singleton in Hc. }
    split; [by apply Hquotes|]. split; [by apply Hquotes|].
    split.
    + intros c r Hname ->. apply Hhd in Hname.
      rewrite bool_decide_eq_true_2 in Hname; [done|]. by apply list_elem_of_singleton.
    + intros r c Hname ->. apply Htl in Hname.
      rewrite bool_decide_eq_true_2 in Hname; [done|]. by apply list_elem_of_singleton.
  - intros cd -> Hno. rewrite Hno. by rewrite andb_false_r.
  - by intros ->.
Qed.

Lemma filename_from_response_witness :
  exit_filename
    (try_body (answering padded_response) sample_link sample_folder empty_world).1 =
    lit "song.mp3" ∧
  exit_filename
    (try_body (answering dropped_response) sample_link sample_folder empty_world).1 =
    sample_id ++ lit ".bin".
Proof.
  split.
  - pose proof (filename_from_response (answering padded_response) sample_link
                  sample_folder sample_link sample_id padded_response empty_world
                  eq_refl eq_refl eq_refl eq_refl) as (Hmarked & _ & _).
    destruct (Hmarked _ (lit "attachment; ")
                (lit " " ++ [34] ++ lit "song.mp3" ++ [34] ++ [32; 9])
                eq_refl eq_refl eq_refl) as [Hname _].
    exact Hname.
  - pose proof (filename_from_response (answering dropped_response) sample_link
                  sample_folder sample_link sample_id dropped_response empty_world
                  eq_refl eq_refl eq_refl eq_refl) as (_ & _ & Hbare).
    exact (Hbare eq_refl).
Defined.

(** ** The loop *)

Section Loop.

Context (output_folder : str).

Implicit Types (s : System) (t : Task) (p : Phase) (w : World).

Lemma tally_insert f (l : list Task) i t t' :
  l !! i = Some t →
  (tally f (<[i := t']> l) + Nat.b2n (f t) = tally f l + Nat.b2n (f t'))%nat.
Proof.
  unfold tally. revert i. induction l as [|x l IH]; intros i Hi; [done|].
  destruct i as [|i]; simpl in *.
  - injection Hi as ->. rewrite !filter_cons.
    destruct (f t), (f t'); simpl; repeat case_decide; simpl; done || lia.
  - specialize (IH _ Hi). rewrite !filter_cons.
    case_decide; simpl; lia.
Qed.

Lemma sum_list_insert (l : list nat) i x y :
  l !! i = Some x → (sum_list (<[i := y]> l) + x = sum_list l + y)%nat.
Proof.
  revert i. induction l as [|z l IH]; intros i Hi; [done|].
  destruct i as [|i]; simpl in *.
  - injection Hi as ->. lia.
  - specialize (IH _ Hi). lia.
Qed.

Local Ltac by_cases :=
  intros [= <- <-]; unfold released;
  rewrite ?progress_except_finally, ?progress_open_wb, ?progress_flush_at;
  simpl; repeat split; first [discriminate | lia | done].

(** What one resumption does to a task that is not finished: it leaves
    the pending phase for good, it advances the progress bar exactly when
    it finishes, and it comes closer to its end. *)
Lemma resume_spec t w p w' :
  task_phase t ≠ Finished →
  resume output_folder t w = (p, w') →
  p ≠ Pending ∧
  progress w' = (progress w + released p)%nat ∧
  (steps_left output_folder (set_phase p t) < steps_left output_folder t)%nat.
Proof.
  intros Hnf. unfold resume, steps_left.
  destruct t as [url o [| identifier | filename filepath rest ending position held |]];
    simpl in *; [| | |done].
  - unfold resolve.
    destruct (unwrap_pillowcase_url url) as [[|c r]|]; try by_cases.
    destruct (ID_PATTERN_search (c :: r)); by_cases.
  - unfold receive, after_reply.
    destruct (session_get o _) as [e|resp]; [by_cases|].
    destruct (400 <=? status resp)%Z; [by_cases|].
    simpl. destruct (open_error o _); by_cases.
  - destruct rest as [|c rest]; unfold write_chunk, close; by_cases.
Qed.

(** The shape of a step of the loop. *)
Lemma step_task_some i s s' :
  step_task output_folder i s = Some s' →
  ∃ t p,
    tasks s !! i = Some t ∧ task_phase t ≠ Finished ∧
    resume output_folder t (world s) = (p, world s') ∧
    tasks s' = <[i := set_phase p t]> (tasks s) ∧
    (semaphore s' + Nat.b2n (holds_slot p)
     = semaphore s + Nat.b2n (holds_slot (task_phase t)))%nat ∧
    p ≠ Pending.
Proof.
  unfold step_task. destruct (tasks s !! i) as [t|] eqn:Hi; [|done].
  destruct (resume output_folder t (world s)) as [p w'] eqn:Hres.
  destruct (task_phase t) eqn:Hph; [| | |done].
  - destruct (semaphore s) as [|free] eqn:Hsem; [done|]. intros [= <-].
    exists t, p. simpl.
    destruct (resume_spec t _ _ _ ltac:(congruence) Hres) as (Hp & _ & _).
    rewrite Hph. repeat split; try done.
    destruct p; unfold released; simpl; first [done | lia].
  - intros [= <-]. exists t, p. simpl.
    destruct (resume_spec t _ _ _ ltac:(congruence) Hres) as (Hp & _ & _).
    rewrite Hph. repeat split; try done.
    destruct p; unfold released; simpl; first [done | lia].
  - intros [= <-]. exists t, p. simpl.
    destruct (resume_spec t _ _ _ ltac:(congruence) Hres) as (Hp & _ & _).
    rewrite Hph. repeat split; try done.
    destruct p; unfold released; simpl; first [done | lia].
Qed.

Lemma step_accounted cap base s s' :
  step output_folder s s' → accounted cap base s → accounted cap base s'.
Proof.
  intros [i (t & p & Hi & Hnf & Hres & Htasks & Hsem & Hp)%step_task_some]
    [Hslots Hprog].
  destruct (resume_spec _ _ _ _ Hnf Hres) as (_ & Hprog' & _).
  unfold accounted, active, finished in *. rewrite Htasks.
  pose proof (tally_insert (λ t, holds_slot (task_phase t)) _ _ _
                (set_phase p t) Hi) as Hact.
  pose proof (tally_insert (λ t, is_finished (task_phase t)) _ _ _
                (set_phase p t) Hi) as Hfin.
  unfold tally in *. simpl in *.
  assert (is_finished (task_phase t) = false) as Hf
    by (destruct (task_phase t); done).
  rewrite Hf in Hfin. simpl in Hfin.
  split; [lia|]. rewrite Hprog'. unfold released.
  destruct (is_finished p); simpl in *; lia.
Qed.

Lemma steps_accounted cap base s s' :
  steps output_folder s s' → accounted cap base s → accounted cap base s'.
Proof. induction 1; eauto using step_accounted. Qed.

Lemma step_remaining s s' :
  step output_folder s s' →
  (remaining output_folder s' < remaining output_folder s)%nat ∧
  length (tasks s') = length (tasks s).
Proof.
  intros [i (t & p & Hi & Hnf & Hres & Htasks & _)%step_task_some].
  destruct (resume_spec _ _ _ _ Hnf Hres) as (_ & _ & Hless).
  unfold remaining. rewrite Htasks, list_fmap_insert, length_insert.
  split; [|done].
  pose proof (sum_list_insert (steps_left output_folder <$> tasks s) i
                (steps_left output_folder t)
                (steps_left output_folder (set_phase p t))) as Hsum.
  rewrite list_lookup_fmap, Hi in Hsum. specialize (Hsum eq_refl). lia.
Qed.

Lemma steps_length s s' :
  steps output_folder s s' → length (tasks s') = length (tasks s).
Proof.
  induction 1 as [|? ? ? Hstep _ IH]; [done|].
  apply step_remaining in Hstep as [_ Hlen]. congruence.
Qed.

Lemma run_steps sched s : steps output_folder s (run output_folder sched s).
Proof.
  revert s. induction sched as [|i sched IH]; intros s; simpl;
    [apply rtc_refl|].
  destruct (step_task output_folder i s) as [s'|] eqn:Hstep; simpl;
    [|apply IH].
  eapply rtc_l; [by exists i|apply IH].
Qed.

Lemma step_first_some cands s s' :
  step_first output_folder cands s = Some s' → step output_folder s s'.
Proof.
  induction cands as [|i cands IH]; simpl; [done|].
  destruct (step_task output_folder i s) eqn:Hstep; [|done].
  intros [= <-]. by exists i.
Qed.

Lemma step_first_none cands s i :
  step_first output_folder cands s = None → i ∈ cands →
  step_task output_folder i s = None.
Proof.
  induction cands as [|j cands IH]; simpl; [by intros _ ?%elem_of_nil|].
  destruct (step_task output_folder j s) eqn:Hstep; [done|].
  intros Hnone [->|Hin]%elem_of_cons; auto.
Qed.

Lemma drain_steps n s : steps output_folder s (drain output_folder n s).
Proof.
  revert s. induction n as [|n IH]; intros s; simpl; [apply rtc_refl|].
  destruct (step_first _ _ s) as [s'|] eqn:Hfirst; [|apply rtc_refl].
  eapply rtc_l; [by eapply step_first_some|apply IH].
Qed.

Lemma tally_pos f (l : list Task) :
  (0 < tally f l)%nat → ∃ i t, l !! i = Some t ∧ f t = true.
Proof.
  unfold tally. induction l as [|x l IH]; simpl; [lia|].
  rewrite filter_cons. case_decide.
  - intros _. by exists 0%nat, x.
  - intros (i & t & ? & ?)%IH. by exists (S i), t.
Qed.

Lemma tally_all f (l : list Task) :
  Forall (λ t, f t = true) l → tally f l = length l.
Proof.
  unfold tally. induction 1 as [|x l Hx _ IH]; [done|].
  rewrite filter_cons, decide_True by done. simpl. by rewrite IH.
Qed.

(** A task whose request is under way can always be resumed. *)
Lemma step_task_holding i s t :
  tasks s !! i = Some t → holds_slot (task_phase t) = true →
  is_Some (step_task output_folder i s).
Proof.
  intros Hi Hh. unfold step_task. rewrite Hi.
  destruct (resume output_folder t (world s)).
  destruct (task_phase t); done || eauto.
Qed.

(** No deadlock: while the slots are accounted for and there is at least
    one, a loop in which no task can be resumed has finished them all. *)
Lemma stuck_all_finished cap base s :
  (0 < cap)%nat → accounted cap base s →
  (∀ i, (i < length (tasks s))%nat → step_task output_folder i s = None) →
  all_finished s.
Proof.
  intros Hcap [Hslots _] Hstuck. apply Forall_lookup. intros i t Hi.
  pose proof (Hstuck i (lookup_lt_Some _ _ _ Hi)) as Hnone.
  destruct (holds_slot (task_phase t)) eqn:Hh.
  { destruct (step_task_holding _ _ _ Hi Hh) as [? ?]. congruence. }
  unfold step_task in Hnone. rewrite Hi in Hnone.
  destruct (resume output_folder t (world s)).
  destruct (task_phase t); try done.
  destruct (semaphore s) eqn:Hsem; [|done].
  destruct (tally_pos (λ t, holds_slot (task_phase t)) (tasks s))
    as (j & t' & Hj & Hh').
  { unfold active in Hslots. lia. }
  destruct (step_task_holding _ _ _ Hj Hh') as [? Hsome].
  rewrite (Hstuck j (lookup_lt_Some _ _ _ Hj)) in Hsome. done.
Qed.

Lemma drain_all_finished cap base n s :
  (0 < cap)%nat → accounted cap base s →
  (remaining output_folder s ≤ n)%nat →
  all_finished (drain output_folder n s).
Proof.
  intros Hcap. revert s. induction n as [|n IH]; intros s Hacc Hrem; simpl.
  - apply Forall_forall. intros t Ht.
    assert (steps_left output_folder t = 0%nat) as H0.
    { unfold remaining in Hrem.
      assert (steps_left output_folder t ∈ steps_left output_folder <$> tasks s)
        as Hin by by apply list_elem_of_fmap_2.
      apply sum_list_with_in with (f := id) in Hin. simpl in Hin.
      lia. }
    unfold steps_left in H0. destruct (task_phase t); try done.
    destruct (unwrap_pillowcase_url _) as [[|? ?]|]; try done.
    by destruct (ID_PATTERN_search _).
  - destruct (step_first _ _ s) as [s'|] eqn:Hfirst.
    + apply step_first_some in Hfirst.
      apply IH; [by eapply step_accounted|].
      apply step_remaining in Hfirst. lia.
    + eapply stuck_all_finished; [done..|].
      intros i Hi. eapply step_first_none; [done|].
      apply list_elem_of_In, in_seq. lia.
Qed.

(** [gather] returns, with every task finished. *)
Lemma gather_spec cap base sched s :
  (0 < cap)%nat → accounted cap base s →
  let s' := gather output_folder sched s in
  steps output_folder s s' ∧ all_finished s' ∧
  length (tasks s') = length (tasks s) ∧
  progress (world s') = (base + length (tasks s))%nat.
Proof.
  intros Hcap Hacc s'. unfold s', gather.
  set (s1 := run output_folder sched s).
  assert (steps output_folder s s1) as H1 by apply run_steps.
  assert (accounted cap base s1) as Hacc1 by by eapply steps_accounted.
  assert (steps output_folder s (drain output_folder (remaining output_folder s1) s1))
    as H2 by (etrans; [done|apply drain_steps]).
  pose proof (drain_all_finished cap base _ s1 Hcap Hacc1 (le_n _)) as Hfin.
  assert (length (tasks (drain output_folder (remaining output_folder s1) s1))
          = length (tasks s)) as Hlen.
  { by apply steps_length. }
  repeat split; try done.
  destruct (steps_accounted _ _ _ _ H2 Hacc) as [_ ->].
  unfold finished. rewrite tally_all, Hlen; [done|].
  eapply Forall_impl; [exact Hfin|]. by intros t ->.
Qed.

End Loop.

(** ** The loop that [main] sets up *)

Section Main.




Implicit Types (env : Env) (w : World) (s : System).

Lemma tally_none f (l : list Task) :
  Forall (λ t, f t = false) l → tally f l = 0%nat.
Proof.
  unfold tally. induction 1 as [|x l Hx _ IH]; [done|].
  rewrite filter_cons, decide_False by congruence. done.
Qed.

Lemma initial_system_pending os urls w :
  Forall (λ t, task_phase t = Pending) (tasks (initial_system os urls w)).
Proof.
  apply Forall_lookup. intros i t. simpl. rewrite list_lookup_imap.
  destruct (urls !! i); simpl; [|done]. by intros [= <-].
Qed.

Lemma initial_system_accounted os urls w :
  accounted MAX_CONCURRENT_DOWNLOADS (progress w) (initial_system os urls w).
Proof.
  pose proof (initial_system_pending os urls w) as Hp.
  unfold accounted, active, finished.
  rewrite !tally_none; [unfold MAX_CONCURRENT_DOWNLOADS; simpl; split; lia|..];
    (eapply Forall_impl; [exact Hp|]); by intros t ->.
Qed.

(** The lines that [parse_urls] hands to the tasks are not empty. *)
Lemma parse_urls_nonempty text : Forall (λ url, url ≠ []) (parse_urls text).
Proof.
  unfold parse_urls. apply Forall_fmap, Forall_forall.
  intros line [Hline _]%list_elem_of_filter. simpl.
  unfold truthy in Hline. intros Hempty. by rewrite Hempty in Hline.
Qed.

(** A task resumed again and again until it is over has done what
    [download_file] does in one go. *)
Lemma resume_times_S output_folder n t w :
  resume_times output_folder (S n) t w =
    let '(p, w') := resume output_folder t w in
    resume_times output_folder n (set_phase p t) w'.
Proof. done. Qed.

Lemma resume_times_streaming output_folder url o filename filepath rest ending
    position held w :
  resume_times output_folder (S (length rest))
    (Build_Task url o (Streaming filename filepath rest ending position held)) w =
    (Finished,
     except_finally url (Build_Exit filename ending)
       (write_chunks o filepath rest position held w)).
Proof.
  revert position held w.
  induction rest as [|c rest IH]; intros position held w; [done|].
  change (length (c :: rest)) with (S (length rest)).
  rewrite resume_times_S. unfold resume at 1.
  cbn [task_phase task_url task_oracle write_chunks].
  destruct (write_chunk o filepath c position held w) as [[position' held'] w'].
  unfold set_phase. cbn [task_url task_oracle]. apply IH.
Qed.

Local Ltac one_step :=
  rewrite resume_times_S; unfold resume at 1;
  cbn [task_phase task_url task_oracle].

Lemma resume_times_download_file output_folder url o w :
  resume_times output_folder
    (steps_left output_folder (Build_Task url o Pending))
    (Build_Task url o Pending) w =
    (Finished, download_file o url output_folder w).
Proof.
  unfold steps_left, download_file, try_body.
  cbn [task_phase task_url task_oracle].
  destruct (unwrap_pillowcase_url url) as [[|c r]|] eqn:Hu;
    try (one_step; unfold resolve; by rewrite Hu).
  destruct (ID_PATTERN_search (c :: r)) as [identifier|] eqn:Hid;
    [|one_step; unfold resolve; by rewrite Hu, Hid].
  one_step. unfold resolve at 1. rewrite Hu, Hid.
  unfold set_phase. cbn [task_url task_oracle]. unfold after_reply.
  destruct (session_get o (download_url_of identifier)) as [e|resp] eqn:Hget;
    [one_step; unfold receive; by rewrite Hget|].
  destruct (400 <=? status resp)%Z eqn:Hst;
    [one_step; unfold receive; by rewrite Hget, Hst|].
  cbv zeta.
  destruct (open_error o _) as [e|] eqn:Hopen;
    [one_step; unfold receive; by rewrite Hget, Hst, Hopen|].
  one_step. unfold receive at 1.
  rewrite Hget, Hst, Hopen. unfold set_phase. cbn [task_url task_oracle].
  apply resume_times_streaming.
Qed.

End Main.

(** ** What a task leaves alone *)

Section Frame.

Implicit Types (w : World) (p : Phase) (t : Task) (s : System).

Lemma left_alone_refl w : left_alone w w.
Proof. by repeat split. Qed.

Lemma left_alone_trans w1 w2 w3 :
  left_alone w1 w2 → left_alone w2 w3 → left_alone w1 w3.
Proof.
  intros (Ho1 & Hd1 & Hn1 & Hs1) (Ho2 & Hd2 & Hn2 & Hs2).
  repeat split; [congruence..|auto].
Qed.

Lemma left_alone_log_error filename url reason w :
  left_alone w (log_error filename url reason w).
Proof. repeat split. by eexists. Qed.

Lemma left_alone_progress_update w : left_alone w (progress_update w).
Proof. by repeat split. Qed.

Lemma left_alone_set_content path data w : left_alone w (set_content path data w).
Proof.
  unfold set_content.
  destruct (path_node w path); repeat split; first [done | by eexists].
Qed.

Lemma left_alone_flush_at path position data w :
  left_alone w (flush_at path position data w).
Proof.
  destruct data; [apply left_alone_refl|apply left_alone_set_content].
Qed.


Lemma left_alone_except_finally url x w :
  left_alone w (except_finally url x w).
Proof.
  unfold except_finally. destruct (exit_raised x).
  - eapply left_alone_trans; [apply left_alone_log_error|].
    apply left_alone_progress_update.
  - apply left_alone_progress_update.
Qed.

Lemma left_alone_resume output_folder t w p w' :
  resume output_folder t w = (p, w') → left_alone w w'.
Proof.
  unfold resume.
  destruct (task_phase t)
    as [|identifier|filename filepath [|c rest] ending position held|].
  - unfold resolve.
    assert (∀ reason,
              left_alone w
                (except_finally (task_url t) (Build_Exit unknown None)
                   (log_error unknown (task_url t) reason w))) as Hfail.
    { intros reason. eapply left_alone_trans; [apply left_alone_log_error|].
      apply left_alone_except_finally. }
    destruct (unwrap_pillowcase_url _) as [[|c r]|]; try (intros [= <- <-]; apply Hfail).
    destruct (ID_PATTERN_search _); intros [= <- <-];
      [apply left_alone_refl|apply Hfail].
  - unfold receive. destruct (session_get _ _) as [e|resp];
      [intros [= <- <-]; apply left_alone_except_finally|].
    destruct (400 <=? status resp)%Z;
      [intros [= <- <-]; apply left_alone_except_finally|].
    simpl. destruct (open_error _ _); intros [= <- <-];
      [apply left_alone_except_finally|apply left_alone_set_content].
  - intros [= <- <-]. eapply left_alone_trans;
      [apply left_alone_flush_at|apply left_alone_except_finally].
  - unfold write_chunk. intros [= <- <-]. apply left_alone_flush_at.
  - intros [= <- <-]. apply left_alone_refl.
Qed.

Lemma step_frame output_folder s s' :
  step output_folder s s' →
  left_alone (world s) (world s') ∧
  task_url <$> tasks s' = task_url <$> tasks s ∧
  task_oracle <$> tasks s' = task_oracle <$> tasks s.
Proof.
  intros [i (t & p & Hi & _ & Hres & Htasks & _)%step_task_some].
  split; [by eapply left_alone_resume|].
  rewrite Htasks, !list_fmap_insert. simpl.
  split; apply list_insert_id; by rewrite list_lookup_fmap, Hi.
Qed.

Lemma steps_frame output_folder s s' :
  steps output_folder s s' →
  left_alone (world s) (world s') ∧
  task_url <$> tasks s' = task_url <$> tasks s ∧
  task_oracle <$> tasks s' = task_oracle <$> tasks s.
Proof.
  induction 1 as [s|s1 s2 s3 Hstep _ (Hw & Hu & Ho)].
  - split; [apply left_alone_refl|done].
  - apply step_frame in Hstep as (Hw' & Hu' & Ho').
    split; [by eapply left_alone_trans|]. split; congruence.
Qed.

End Frame.

(** ** The outcome of a task *)

Section Outcomes.

Context (output_folder : str).

Implicit Types (w : World) (p : Phase) (t : Task) (s : System) (x : Outcome).



Lemma own_write_flush_at x filepath body position data w :
  file_of x = Some (filepath, body) →
  own_write x w (flush_at filepath position data w).
Proof.
  intros Hfile. destruct data as [|c data]; [by left|].
  right. by eexists filepath, body, _.
Qed.

(** What one resumption of a task does: it puts bytes in the file of the
    task or in none, and the resumption that ends the task appends the
    record of its outcome, if it has one, and advances the progress bar. *)
Lemma resume_acts t w p w' :
  coherent output_folder t → task_phase t ≠ Finished →
  resume output_folder t w = (p, w') →
  coherent output_folder (set_phase p t) ∧
  ∃ w1, own_write (task_outcome output_folder t) w w1 ∧
        w' = if is_finished p
             then progress_update
                    (with_record (task_url t)
                       (record_of (task_outcome output_folder t)) w1)
             else w1.
Proof.
  destruct t as [url o [|identifier|filename filepath rest ending position held|]];
    unfold coherent, task_outcome, resume; cbn [task_phase task_url task_oracle set_phase];
    intros Hcoh Hnf; [| | |done].
  - unfold resolve, outcome.
    destruct (unwrap_pillowcase_url url) as [[|c r]|];
      try (intros [= <- <-]; split; [done|]; exists w; split; [by left|done]).
    destruct (ID_PATTERN_search (c :: r)) as [identifier|]; intros [= <- <-];
      (split; [done|]); exists w; (split; [by left|done]).
  - rewrite Hcoh. unfold receive, outcome_after.
    destruct (session_get o _) as [e|resp];
      [intros [= <- <-]; split; [done|]; exists w; split; [by left|done]|].
    destruct (400 <=? status resp)%Z;
      [intros [= <- <-]; split; [done|]; exists w; split; [by left|done]|].
    cbv zeta. destruct (open_error o _) as [e|];
      [intros [= <- <-]; split; [done|]; exists w; split; [by left|done]|].
    intros [= <- <-]. split.
    + destruct (transfer_error resp); split; by eauto.
    + eexists. split; [|done]. right.
      destruct (transfer_error resp); by eexists _, _, [].
  - destruct Hcoh as [[body Hfile] Hrec]. destruct rest as [|c rest].
    + intros [= <- <-]. split; [done|].
      exists (flush_at filepath position held w).
      split; [by eapply own_write_flush_at|].
      unfold except_finally, close. rewrite Hrec. by destruct ending.
    + unfold write_chunk. intros [= <- <-]. split; [by eauto|].
      eexists. split; [by eapply own_write_flush_at|done].
Qed.

(** *** The error log *)

Lemma error_log_set_content path data w :
  path_node w path ≠ ErrorLog → error_log (set_content path data w) = error_log w.
Proof. unfold set_content. by destruct (path_node w path). Qed.

Lemma log_text_with_record url r w :
  log_text (with_record url r w) = log_text w ++ record_line url r.
Proof.
  destruct r as [[filename reason]|]; simpl; [done|]. by rewrite app_nil_r.
Qed.

Lemma own_write_log x w w1 :
  own_write x w w1 →
  (∀ filepath body, file_of x = Some (filepath, body) →
                    path_node w filepath ≠ ErrorLog) →
  error_log w1 = error_log w.
Proof.
  intros [->|(filepath & body & data & Hfile & ->)] Hnolog; [done|].
  apply error_log_set_content. by eapply Hnolog.
Qed.

Lemma omap_insert_same {A B} (f : A → option B) (l : list A) i a b :
  l !! i = Some a → f b = f a → omap f (<[i := b]> l) = omap f l.
Proof.
  revert i. induction l as [|c l IH]; intros i Hi Hf; [done|].
  destruct i as [|i]; cbn in *.
  - injection Hi as ->. by rewrite Hf.
  - specialize (IH i Hi Hf). destruct (f c); [f_equal|]; exact IH.
Qed.


Lemma filter_insert_keep {A} (P : A → Prop) `{∀ a, Decision (P a)} (l : list A) i a b :
  l !! i = Some a → ¬ P a → ¬ P b → filter P (<[i := b]> l) = filter P l.
Proof.
  revert i. induction l as [|c l IH]; intros i Hi Ha Hb; [done|].
  destruct i as [|i]; simpl in Hi.
  - injection Hi as ->. change (<[0%nat := b]> (a :: l)) with (b :: l).
    by rewrite !filter_cons, !decide_False.
  - change (<[S i := b]> (c :: l)) with (c :: <[i := b]> l).
    rewrite !filter_cons. by rewrite (IH i).
Qed.

Lemma filter_insert_new {A} (P : A → Prop) `{∀ a, Decision (P a)} (l : list A) i a b :
  l !! i = Some a → ¬ P a → P b → filter P (<[i := b]> l) ≡ₚ filter P l ++ [b].
Proof.
  revert i. induction l as [|c l IH]; intros i Hi Ha Hb; [done|].
  destruct i as [|i]; simpl in Hi.
  - injection Hi as ->. change (<[0%nat := b]> (a :: l)) with (b :: l).
    rewrite !filter_cons, decide_True, decide_False by done.
    apply Permutation_cons_append.
  - change (<[S i := b]> (c :: l)) with (c :: <[i := b]> l).
    rewrite !filter_cons.
    destruct (decide (P c)); [|by apply IH]. by rewrite (IH i).
Qed.

Lemma file_nodes_lookup nodes (l : list Task) k t filepath body :
  l !! k = Some t →
  file_of (task_outcome output_folder t) = Some (filepath, body) →
  nodes filepath ∈ file_nodes output_folder nodes l.
Proof.
  intros Hk Hfile. apply list_elem_of_omap. exists t.
  split; [by eapply list_elem_of_lookup_2|]. by rewrite Hfile.
Qed.

(** One step of the loop, as to the error log: while no task writes the
    log as its file, the log grows by the record of the task that ends,
    and by nothing else. *)
Lemma step_log nodes s s' :
  step output_folder s s' →
  Forall (coherent output_folder) (tasks s) →
  path_node (world s) = nodes →
  ErrorLog ∉ file_nodes output_folder nodes (tasks s) →
  Forall (coherent output_folder) (tasks s') ∧
  path_node (world s') = nodes ∧
  file_nodes output_folder nodes (tasks s') =
    file_nodes output_folder nodes (tasks s) ∧
  ∃ ended,
    finished_tasks s' ≡ₚ finished_tasks s ++ ended ∧
    log_text (world s') =
      log_text (world s) ++ concat (task_record output_folder <$> ended).
Proof.
  intros [i (t & p & Hi & Hnf & Hres & Htasks & _)%step_task_some] Hcoh Hnodes Hnolog.
  pose proof (left_alone_resume _ _ _ _ _ Hres) as (_ & _ & Hn & _).
  destruct (resume_acts t _ _ _ ltac:(by eapply Forall_lookup_1) Hnf Hres)
    as (Hcoh' & w1 & Hown & Hw').
  assert (error_log w1 = error_log (world s)) as Hlog.
  { apply (own_write_log _ _ _ Hown). intros filepath body Hfile Hnode.
    apply Hnolog. rewrite <- Hnode, Hnodes. by eapply file_nodes_lookup. }
  split; [rewrite Htasks; by apply Forall_insert|].
  split; [by rewrite (path_node_ext _ _ Hn)|].
  split; [rewrite Htasks; by apply (omap_insert_same _ _ _ t)|].
  assert (is_finished (task_phase t) ≠ true) as Hnot
    by (by destruct (task_phase t)).
  unfold finished_tasks. rewrite Htasks. destruct (is_finished p) eqn:Hp.
  - exists [set_phase p t]. split.
    + by apply filter_insert_new with (a := t).
    + rewrite Hw'. unfold progress_update, log_text at 1. simpl error_log.
      fold (log_text (with_record (task_url t)
                        (record_of (task_outcome output_folder t)) w1)).
      rewrite log_text_with_record. unfold log_text. rewrite Hlog.
      simpl. by rewrite app_nil_r.
  - exists []. split.
    + rewrite app_nil_r.
      rewrite (filter_insert_keep _ _ _ t); [done..|]. simpl. by rewrite Hp.
    + rewrite Hw'. unfold log_text. rewrite Hlog. simpl. by rewrite app_nil_r.
Qed.

Lemma steps_log nodes s s' :
  steps output_folder s s' →
  Forall (coherent output_folder) (tasks s) →
  path_node (world s) = nodes →
  ErrorLog ∉ file_nodes output_folder nodes (tasks s) →
  Forall (coherent output_folder) (tasks s') ∧
  path_node (world s') = nodes ∧
  file_nodes output_folder nodes (tasks s') =
    file_nodes output_folder nodes (tasks s) ∧
  ∃ ended,
    finished_tasks s' ≡ₚ finished_tasks s ++ ended ∧
    log_text (world s') =
      log_text (world s) ++ concat (task_record output_folder <$> ended).
Proof.
  induction 1 as [s|s1 s2 s3 Hstep _ IH]; intros Hcoh Hnodes Hnolog.
  - repeat split; try done. exists []. by rewrite !app_nil_r.
  - destruct (step_log _ _ _ Hstep Hcoh Hnodes Hnolog)
      as (Hcoh2 & Hnodes2 & Hfn2 & ended1 & Hperm1 & Hlog1).
    destruct (IH Hcoh2 Hnodes2 ltac:(by rewrite Hfn2))
      as (Hcoh3 & Hnodes3 & Hfn3 & ended2 & Hperm2 & Hlog2).
    split; [done|]. split; [done|]. split; [congruence|].
    exists (ended1 ++ ended2). split.
    + by rewrite Hperm2, Hperm1, <- app_assoc.
    + by rewrite Hlog2, Hlog1, fmap_app, concat_app, <- app_assoc.
Qed.

(** *** The files *)










(** The tasks as [main] sets them up. *)
Lemma initial_system_coherent os urls w :
  Forall (coherent output_folder) (tasks (initial_system os urls w)).
Proof.
  eapply Forall_impl; [apply initial_system_pending|].
  intros t Hp. unfold coherent. by rewrite Hp.
Qed.



End Outcomes.

(** ** The claim about the outcome of a task *)







(** Two lines whose responses name the same file: what the file holds in
    the end depends on the order in which the loop resumes the two tasks,
    and it need be the body of neither. *)
Lemma shared_file_example :
  let named body :=
    answering {| status := 200; status_error := [];
                 headers_get := only_disposition (lit "attachment; filename=f");
                 chunks := body; transfer_error := None |} in
  let os := λ k, if (k =? 0)%nat then named [[1; 2; 3]] else named [[7]] in
  let s := initial_system os [sample_link; sample_link] empty_world in
  let after sched := world (gather sample_folder sched s) in
  content_at (sample_folder ++ lit "/f") (after [0; 0; 0; 0; 1; 1; 1; 1]%nat) =
    Some [7] ∧
  content_at (sample_folder ++ lit "/f") (after [1; 1; 1; 1; 0; 0; 0; 0]%nat) =
    Some [1; 2; 3] ∧
  content_at (sample_folder ++ lit "/f") (after [0; 0; 1; 1; 0; 0; 1; 1]%nat) =
    Some [7; 2; 3] ∧
  error_log (after [0; 0; 1; 1; 0; 0; 1; 1]%nat) = None.
Proof. repeat split; vm_compute; reflexivity. Qed.

(** ** The claims about the scheduler *)

(** C2.  Whatever the lines and however the tasks are interleaved, in every
    state that the loop of [main] reaches at most
    [MAX_CONCURRENT_DOWNLOADS], that is 15, tasks have their request under
    way: these tasks and the free slots of the semaphore always add up to
    15. *)
Theorem concurrency_cap (os : nat → Oracle) (urls : list str) (w : World)
    (output_folder : str) (s : System) :
  steps output_folder (initial_system os urls w) s →
  (active s ≤ MAX_CONCURRENT_DOWNLOADS)%nat ∧
  (semaphore s + active s = 15)%nat.
Proof.
  intros Hsteps.
  destruct (steps_accounted _ _ _ _ _ Hsteps (initial_system_accounted os urls w))
    as [Hslots _].
  unfold MAX_CONCURRENT_DOWNLOADS in *. lia.
Qed.

Lemma concurrency_cap_witness :
  let s := run sample_folder (seq 0 17)
             (initial_system (λ _, answering song_response)
                (replicate 17 sample_link) empty_world) in
  active s = 15%nat ∧ semaphore s = 0%nat ∧
  (active s ≤ MAX_CONCURRENT_DOWNLOADS)%nat.
Proof.
  intros s. split; [reflexivity|]. split; [reflexivity|].
  apply (concurrency_cap (λ _, answering song_response) (replicate 17 sample_link)
           empty_world sample_folder s).
  apply run_steps.
Defined.



(** C8.  An input without a non-empty stripped line: [main] prints
    [No URLs found.] and returns, without an exception; it makes no
    directory, creates no task and touches neither the files, the error log
    nor the progress bar. *)
Theorem no_urls_no_work (env : Env) (input_text : str) (w : World) :
  parse_urls input_text = [] →
  let e := main env input_text w in
  e = {| end_world := print (lit "No URLs found.") w;
         end_tasks := []; end_raised := None |} ∧
  stdout (end_world e) = stdout w ++ [lit "No URLs found."] ∧
  dirs (end_world e) = dirs w ∧
  files (end_world e) = files w ∧
  error_log (end_world e) = error_log w ∧
  progress (end_world e) = progress w.
Proof. intros Hnone e. unfold e, main. rewrite Hnone. done. Qed.

Lemma no_urls_no_work_witness :
  let env := {| timestamp := lit "2024-01-01_00-00-00"; elapsed := lit "0.00";
                makedirs_error := Some (lit "Permission denied");
                oracles := λ _, answering song_response;
                schedule := [] |} in
  parse_urls [10; 32; 9; 13; 10] = [] ∧
  stdout (end_world (main env [10; 32; 9; 13; 10] empty_world)) =
    [lit "No URLs found."] ∧
  dirs (end_world (main env [10; 32; 9; 13; 10] empty_world)) = [] ∧
  end_tasks (main env [10; 32; 9; 13; 10] empty_world) = [] ∧
  end_raised (main env [10; 32; 9; 13; 10] empty_world) = None.
Proof.
  intros env. split; [reflexivity|].
  destruct (no_urls_no_work env [10; 32; 9; 13; 10] empty_world eq_refl)
    as (Hmain & Hout & Hdirs & _).
  split; [exact Hout|]. split; [exact Hdirs|]. by rewrite Hmain.
Defined.

(** * Further properties *)

(** ** Stripping *)

Section StripFacts.

Context (f : N → bool).

Implicit Types s t : str.

Lemma lstrip_by_app s t :
  lstrip_by f (s ++ t) =
    match lstrip_by f s with
    | [] => lstrip_by f t
    | _ => lstrip_by f s ++ t
    end.
Proof.
  induction s as [|c s IH]; simpl; [by destruct (lstrip_by f t)|].
  destruct (f c); [done|]. done.
Qed.

Lemma strip_by_snoc s c : f c = true → strip_by f (s ++ [c]) = strip_by f s.
Proof.
  intros Hc. unfold strip_by, rstrip_by. rewrite lstrip_by_app.
  destruct (lstrip_by f s) as [|d u] eqn:Hs.
  - simpl. by rewrite Hc.
  - rewrite rev_app_distr. simpl. by rewrite Hc.
Qed.

Lemma strip_by_cons s c : f c = true → strip_by f (c :: s) = strip_by f s.
Proof. intros Hc. unfold strip_by. simpl. by rewrite Hc. Qed.

(** Text without a removable character at either end is left alone. *)
Lemma strip_by_id s :
  (∀ c r, s = c :: r → f c = false) →
  (∀ r c, s = r ++ [c] → f c = false) →
  strip_by f s = s.
Proof.
  intros Hhd Htl. unfold strip_by, rstrip_by.
  assert (lstrip_by f s = s) as ->.
  { destruct s as [|c r]; [done|]. simpl. by rewrite (Hhd c r). }
  destruct (rev s) as [|c r] eqn:Hrev.
  - by rewrite <- (rev_involutive s), Hrev.
  - simpl. assert (s = rev r ++ [c]) as Hs.
    { rewrite <- (rev_involutive s), Hrev. done. }
    rewrite (Htl _ _ Hs). simpl. by rewrite Hs.
Qed.

End StripFacts.

(** ** The lines of the input file *)

Section FileLines.

Implicit Types cur s t line : str.

Lemma file_lines_char cur c s :
  c ≠ 10 → c ≠ 13 → file_lines cur (c :: s) = file_lines (cur ++ [c]) s.
Proof.
  intros H10%N.eqb_neq H13%N.eqb_neq. simpl. by rewrite H10, H13.
Qed.

Lemma file_lines_cr cur d s :
  d ≠ 10 →
  file_lines cur (13 :: d :: s) = (cur ++ [10]) :: file_lines [] (d :: s).
Proof.
  intros H10%N.eqb_neq.
  change (file_lines cur (13 :: d :: s))
    with (if d =? 10 then (cur ++ [10]) :: file_lines [] s
          else (cur ++ [10]) :: file_lines [] (d :: s)).
  by rewrite H10.
Qed.

(** Reasoning along the way [file_lines] reads a text. *)
Lemma file_lines_cases (P : str → str → Prop) :
  (∀ cur, P cur []) →
  (∀ cur s, P [] s → P cur (10 :: s)) →
  (∀ cur s, P [] s → P cur (13 :: 10 :: s)) →
  (∀ cur, P cur [13]) →
  (∀ cur d s, d ≠ 10 → P [] (d :: s) → P cur (13 :: d :: s)) →
  (∀ cur c s, c ≠ 10 → c ≠ 13 → P (cur ++ [c]) s → P cur (c :: s)) →
  ∀ s cur, P cur s.
Proof.
  intros Hnil Hlf Hcrlf Hcrend Hcr Hchar s.
  assert (∀ n s, (length s ≤ n)%nat → ∀ cur, P cur s) as Hall;
    [|by apply (Hall (length s))].
  clear s. intros n. induction n as [|n IH]; intros s Hlen cur.
  { destruct s; [apply Hnil|simpl in Hlen; lia]. }
  destruct s as [|c s]; [apply Hnil|]. simpl in Hlen.
  destruct (decide (c = 10)) as [->|H10].
  { apply Hlf, IH. lia. }
  destruct (decide (c = 13)) as [->|H13].
  2: { apply Hchar; [done..|]. apply IH. lia. }
  destruct s as [|d s]; [apply Hcrend|]. simpl in Hlen.
  destruct (decide (d = 10)) as [->|Hd].
  - apply Hcrlf, IH. lia.
  - apply Hcr; [done|]. apply IH. simpl. lia.
Qed.

(** A line of the file holds no line break but the line feed that ends it. *)
Lemma file_lines_shape s cur line :
  Forall (λ c, is_break c = false) cur →
  line ∈ file_lines cur s →
  ∃ body, Forall (λ c, is_break c = false) body ∧
          (line = body ∨ line = body ++ [10]).
Proof.
  revert line. pattern cur, s. revert s cur. apply file_lines_cases.
  - intros cur line Hcur. destruct cur; simpl; [by intros ?%elem_of_nil|].
    intros ->%list_elem_of_singleton. eauto.
  - intros cur s IH line Hcur. simpl.
    intros [->|Hin]%elem_of_cons; [eauto|]. by apply IH.
  - intros cur s IH line Hcur. simpl.
    intros [->|Hin]%elem_of_cons; [eauto|]. by apply IH.
  - intros cur line Hcur. simpl.
    intros ->%list_elem_of_singleton. eauto.
  - intros cur d s Hd IH line Hcur. rewrite file_lines_cr by done.
    intros [->|Hin]%elem_of_cons; [eauto|]. by apply IH.
  - intros cur c s H10 H13 IH line Hcur. rewrite file_lines_char by done.
    apply IH. apply Forall_app. split; [done|]. apply Forall_singleton.
    unfold is_break. apply N.eqb_neq in H10, H13. by rewrite H10, H13.
Qed.

(** A text without line breaks is one line. *)
Lemma file_lines_plain s cur :
  Forall (λ c, is_break c = false) s → cur ++ s ≠ [] →
  file_lines cur s = [cur ++ s].
Proof.
  revert cur. induction s as [|c s IH]; intros cur Hs Hne.
  - rewrite app_nil_r in *. by destruct cur.
  - apply Forall_cons in Hs as [Hc Hs]. unfold is_break in Hc.
    apply orb_false_elim in Hc as [H10%N.eqb_neq H13%N.eqb_neq].
    rewrite file_lines_char by done. rewrite IH.
    + by rewrite <- app_assoc.
    + done.
    + rewrite <- app_assoc. done.
Qed.

Lemma strip_line_feed cur : strip (cur ++ [10]) = strip cur.
Proof. by apply strip_by_snoc. Qed.

Lemma stripped_lines_cons line lines :
  stripped_lines (line :: lines) =
    (if truthy (strip line) then [strip line] else []) ++ stripped_lines lines.
Proof.
  unfold stripped_lines. rewrite filter_cons.
  destruct (truthy (strip line)) eqn:Ht.
  - by rewrite decide_True.
  - by rewrite decide_False by congruence.
Qed.

(** Reading two texts joined by a line feed gives the lines of the first
    and then those of the second. *)
Lemma stripped_lines_joined s cur t :
  stripped_lines (file_lines cur (s ++ 10 :: t)) =
    stripped_lines (file_lines cur s) ++ stripped_lines (file_lines [] t).
Proof.
  pattern cur, s. revert s cur. apply file_lines_cases.
  - intros cur. simpl. rewrite stripped_lines_cons, strip_line_feed.
    destruct cur as [|c cur]; [done|].
    by rewrite stripped_lines_cons, app_nil_r.
  - intros cur s IH. simpl. by rewrite !stripped_lines_cons, IH, app_assoc.
  - intros cur s IH. simpl. by rewrite !stripped_lines_cons, IH, app_assoc.
  - intros cur. simpl. by rewrite !stripped_lines_cons, app_nil_r.
  - intros cur d s Hd IH.
    change ((13 :: d :: s) ++ 10 :: t) with (13 :: d :: (s ++ 10 :: t)).
    rewrite !file_lines_cr by done.
    by rewrite !stripped_lines_cons, <- app_assoc, <- IH.
  - intros cur c s H10 H13 IH.
    change ((c :: s) ++ 10 :: t) with (c :: (s ++ 10 :: t)).
    rewrite !file_lines_char by done. apply IH.
Qed.

End FileLines.

(** ** [parse_urls] *)

Lemma break_is_space c : is_break c = true → isspace c = true.
Proof.
  unfold is_break. by intros [->%N.eqb_eq| ->%N.eqb_eq]%orb_prop.
Qed.

(** A character of [u] is a character of [a ++ u ++ b ++ [d]] before the
    last one. *)
Lemma middle_before_last (a u b body : str) (c d : N) :
  a ++ u ++ b ++ [d] = body ++ [10] → c ∈ u → c ∈ body.
Proof.
  intros Heq Hc.
  replace (a ++ u ++ b ++ [d]) with ((a ++ u ++ b) ++ [d]) in Heq
    by (by rewrite <- !app_assoc).
  apply app_inj_tail in Heq as [<- _]. set_solver.
Qed.

(** X1.  Every line that [parse_urls] returns is not empty, holds no line
    break and neither starts nor ends with whitespace. *)
Theorem parse_urls_clean (text : str) : Forall clean_line (parse_urls text).
Proof.
  unfold parse_urls. apply Forall_fmap, Forall_forall.
  intros line [Htruthy Hin]%list_elem_of_filter. simpl.
  destruct (file_lines_shape _ _ _ (Forall_nil_2 _) Hin) as (body & Hbody & Hline).
  destruct (strip_by_spec isspace line) as (a & b & Hab & _ & _ & Hhd & Htl).
  fold (strip line) in Hab, Hhd, Htl.
  split; [|split; [|split]]; try done.
  - unfold truthy in Htruthy. intros Hempty. by rewrite Hempty in Htruthy.
  - apply Forall_forall. intros c Hc.
    destruct (is_break c) eqn:Hbreak; [exfalso|done].
    pose proof (break_is_space _ Hbreak) as Hspace.
    rewrite Forall_forall in Hbody.
    assert (c ∈ body → False) as Hnot
      by (intros Hcb%Hbody; congruence).
    destruct Hline as [->| ->].
    { apply Hnot. rewrite Hab. set_solver. }
    (* the break can only be the line feed at the end, which is stripped *)
    destruct b as [|d b _] using rev_ind.
    + rewrite app_nil_r in Hab.
      destruct (strip (body ++ [10])) as [|d u _] eqn:Hu using rev_ind;
        [by apply elem_of_nil in Hc|].
      assert (isspace d = false) as Hd by by eapply Htl.
      apply Hnot.
      apply elem_of_app in Hc as [Hc|Hc%list_elem_of_singleton];
        [|congruence].
      rewrite app_assoc in Hab. apply app_inj_tail in Hab as [-> _]. set_solver.
    + apply Hnot. by eapply (middle_before_last a _ b body c d).
Qed.

(** X2.  The lines of two texts joined by a line feed are the lines of the
    first followed by the lines of the second. *)
Theorem parse_urls_joined (first second : str) :
  parse_urls (first ++ [10] ++ second) = parse_urls first ++ parse_urls second.
Proof. apply stripped_lines_joined. Qed.

Lemma parse_urls_unfold text :
  parse_urls text = stripped_lines (file_lines [] text).
Proof. done. Qed.

Lemma parse_urls_one_line url :
  clean_line url → parse_urls url = [url].
Proof.
  intros (Hne & Hnb & Hhd & Htl). unfold parse_urls.
  rewrite file_lines_plain by done. simpl.
  assert (strip url = url) as Hstrip by by apply strip_by_id.
  rewrite filter_cons, decide_True.
  - by rewrite filter_nil; simpl; rewrite Hstrip.
  - rewrite Hstrip. unfold truthy. by rewrite bool_decide_eq_false_2.
Qed.

(** X3.  Writing clean lines one per line and reading them back returns
    the same lines, in the same order. *)
Theorem parse_urls_one_per_line (urls : list str) :
  Forall clean_line urls → parse_urls (one_per_line urls) = urls.
Proof.
  induction 1 as [|url urls Hurl _ IH]; [done|].
  assert (one_per_line (url :: urls) = url ++ 10 :: one_per_line urls) as ->
    by (unfold one_per_line; simpl; by rewrite <- app_assoc).
  rewrite parse_urls_unfold, stripped_lines_joined, <- !parse_urls_unfold.
  rewrite parse_urls_one_line by done. simpl. f_equal. exact IH.
Qed.

Lemma clean_lineb_correct url : clean_lineb url = true → clean_line url.
Proof.
  unfold clean_lineb. intros [[[Hne Hnb]%andb_prop Hhd]%andb_prop Htl]%andb_prop.
  split; [|split; [|split]].
  - unfold truthy in Hne. intros ->. done.
  - apply Forall_forall. intros c Hc%list_elem_of_In.
    rewrite forallb_forall in Hnb. by apply negb_true_iff, Hnb.
  - intros c r ->. by apply negb_true_iff.
  - intros r c ->. rewrite rev_app_distr in Htl. by apply negb_true_iff.
Qed.

Lemma parse_urls_one_per_line_witness :
  Forall clean_line [sample_link; lit "second line"] ∧
  parse_urls (one_per_line [sample_link; lit "second line"]) =
    [sample_link; lit "second line"].
Proof.
  assert (Forall clean_line [sample_link; lit "second line"]) as Hclean
    by (repeat constructor; by apply clean_lineb_correct).
  split; [exact Hclean|].
  exact (parse_urls_one_per_line _ Hclean).
Defined.

(** ** More on the resolver and the translator *)

(** X4.  The resolver answers with the whole line or not at all: a line is
    resolved, to itself, exactly when it holds [pillowcase.su/f/]; the
    pattern search of the second branch never decides the answer. *)
Theorem resolver_whole_line_or_nothing (url : str) :
  unwrap_pillowcase_url url =
    (if contains (lit "pillowcase.su/f/") url then Some url else None) ∧
  (∀ link, unwrap_pillowcase_url url = Some link →
           link = url ∧ unwrap_pillowcase_url link = Some link).
Proof.
  assert (unwrap_pillowcase_url url =
            (if contains (lit "pillowcase.su/f/") url then Some url else None))
    as Heq.
  { unfold unwrap_pillowcase_url.
    destruct (contains _ url) eqn:Hc; [done|].
    by rewrite link_search_shadowed. }
  split; [done|]. intros link. rewrite Heq.
  destruct (contains _ url) eqn:Hc; [|done]. intros [= <-].
  split; [done|]. unfold unwrap_pillowcase_url. by rewrite Hc.
Qed.

Lemma resolver_whole_line_or_nothing_witness :
  unwrap_pillowcase_url (lit "no link here") = None ∧
  (sample_link = sample_link ∧
   unwrap_pillowcase_url sample_link = Some sample_link).
Proof.
  split.
  - exact (proj1 (resolver_whole_line_or_nothing (lit "no link here"))).
  - exact (proj2 (resolver_whole_line_or_nothing sample_link) sample_link eq_refl).
Defined.

(** X5.  [ID_PATTERN.search] finds nothing exactly in the texts that hold
    no 32 characters of [[a-f0-9]] in a row. *)
Theorem identifier_search_fails_iff (s : str) :
  ID_PATTERN_search s = None ↔
  ∀ a m b, s = a ++ m ++ b → length m = 32%nat →
           forallb Re.hex_lower m = false.
Proof.
  split.
  - intros Hnone a m b -> Hl.
    destruct (forallb Re.hex_lower m) eqn:Hh; [|done].
    pose proof (search_none _ _ Hnone (length a)) as Hat.
    rewrite drop_app_length, hex32_at_exact in Hat; done.
  - intros Hno. destruct (ID_PATTERN_search s) as [identifier|] eqn:Hid; [|done].
    apply ID_PATTERN_search_some in Hid as (Hl & Hh & a & b & Hs & _).
    rewrite (Hno _ _ _ Hs Hl) in Hh. done.
Qed.

Lemma identifier_search_fails_iff_witness :
  ID_PATTERN_search (lit "pillowcase.su/f/DEADBEEFDEADBEEFDEADBEEFDEADBEEF") = None ∧
  forallb Re.hex_lower (lit "DEADBEEFDEADBEEFDEADBEEFDEADBEEF") = false.
Proof.
  split; [reflexivity|].
  exact (proj1 (identifier_search_fails_iff
                  (lit "pillowcase.su/f/DEADBEEFDEADBEEFDEADBEEFDEADBEEF"))
           eq_refl (lit "pillowcase.su/f/")
           (lit "DEADBEEFDEADBEEFDEADBEEFDEADBEEF") [] eq_refl eq_refl).
Defined.

Lemma contains_app_r p a s : contains p s = true → contains p (a ++ s) = true.
Proof.
  intros (x & y & ->)%contains_iff. apply contains_iff.
  exists (a ++ x), y. by rewrite <- app_assoc.
Qed.

(** X6.  A line that starts with [https://pillowcase.su/f/] and 32
    characters of [[a-f0-9]] is translated to exactly these characters,
    whatever follows them. *)
Theorem link_with_tail_translates (identifier tail : str) (w : World) :
  length identifier = 32%nat → forallb Re.hex_lower identifier = true →
  resolve (lit "https://pillowcase.su/f/" ++ identifier ++ tail) w =
    (Requesting identifier, w).
Proof.
  intros Hl Hh.
  apply (resolve_translated _ _ (lit "https://pillowcase.su/f/" ++ identifier ++ tail)).
  - unfold unwrap_pillowcase_url.
    assert (contains (lit "pillowcase.su/f/")
              (lit "https://pillowcase.su/f/" ++ identifier ++ tail) = true) as ->; [|done].
    apply (contains_app_r _ (lit "https://")), contains_iff.
    by exists [], (identifier ++ tail).
  - unfold ID_PATTERN_search. rewrite search_skip.
    + apply search_hit. by apply hex32_at_exact.
    + intros k Hk.
      change (length (lit "https://pillowcase.su/f/")) with 24%nat in Hk.
      apply (hex32_at_bad _ (23 - k) 47); [|lia|done].
      rewrite lookup_drop, lookup_app_l by (simpl; lia).
      replace (k + (23 - k))%nat with 23%nat by lia. done.
Qed.

Lemma link_with_tail_translates_witness :
  resolve (sample_link ++ lit "?download=1#top") empty_world =
    (Requesting sample_id, empty_world).
Proof.
  exact (link_with_tail_translates sample_id (lit "?download=1#top") empty_world
           eq_refl eq_refl).
Defined.

(** X7.  The identifier is the first run of 32 characters of [[a-f0-9]] of
    the line, not the one of the link: a line that starts with such a run
    and holds [pillowcase.su/f/] anywhere behind it is translated to that
    first run. *)
Theorem leading_run_is_identifier (run tail : str) (w : World) :
  length run = 32%nat → forallb Re.hex_lower run = true →
  contains (lit "pillowcase.su/f/") tail = true →
  resolve (run ++ tail) w = (Requesting run, w).
Proof.
  intros Hl Hh Hc. apply (resolve_translated _ _ (run ++ tail)).
  - unfold unwrap_pillowcase_url. by rewrite contains_app_r.
  - apply search_hit. by apply hex32_at_exact.
Qed.

Lemma leading_run_is_identifier_witness :
  resolve (lit "0123456789abcdef0123456789abcdef " ++ sample_link) empty_world =
    (Requesting (lit "0123456789abcdef0123456789abcdef"), empty_world).
Proof.
  exact (leading_run_is_identifier (lit "0123456789abcdef0123456789abcdef")
           (lit " " ++ sample_link) empty_world eq_refl eq_refl eq_refl).
Defined.





(** X9.  However the loop runs, from any state: the tasks print nothing,
    make no directory and give no file another name, a log that exists
    keeps existing, and the lines and oracles of the tasks stay as they
    were.  When the tasks are coherent and none of them has the error log
    as its file, what stood in the log stays at its head. *)
Theorem loop_frame (output_folder : str) (s s' : System) :
  steps output_folder s s' →
  left_alone (world s) (world s') ∧
  task_url <$> tasks s' = task_url <$> tasks s ∧
  task_oracle <$> tasks s' = task_oracle <$> tasks s ∧
  (Forall (coherent output_folder) (tasks s) →
   ErrorLog ∉ file_nodes output_folder (path_node (world s)) (tasks s) →
   ∃ suffix, log_text (world s') = log_text (world s) ++ suffix).
Proof.
  intros Hsteps. destruct (steps_frame _ _ _ Hsteps) as (Hw & Hu & Ho).
  repeat split; try done; try apply Hw.
  intros Hcoh Hnolog.
  destruct (steps_log _ _ _ _ Hsteps Hcoh eq_refl Hnolog)
    as (_ & _ & _ & ended & _ & Hlog).
  by eexists.
Qed.

Lemma loop_frame_witness :
  let s := initial_system (λ _, answering missing_response)
             [sample_link; lit "junk"]
             (log_error (lit "old.bin") (lit "old line") (lit "earlier run")
                empty_world) in
  let s' := gather sample_folder [1; 0; 0]%nat s in
  steps sample_folder s s' ∧
  task_url <$> tasks s' = [sample_link; lit "junk"] ∧
  ∃ suffix,
    log_text (world s') =
      error_record (lit "old.bin") (lit "old line") (lit "earlier run") ++ suffix.
Proof.
  intros s s'.
  assert (steps sample_folder s s') as Hsteps.
  { apply (gather_spec sample_folder MAX_CONCURRENT_DOWNLOADS 0 [1; 0; 0]%nat s);
      [unfold MAX_CONCURRENT_DOWNLOADS; lia|apply initial_system_accounted]. }
  destruct (loop_frame sample_folder s s' Hsteps) as (_ & Hurls & _ & Hlog).
  split; [exact Hsteps|]. split; [exact Hurls|].
  apply Hlog; [apply initial_system_coherent|].
  apply (bool_decide_unpack _). vm_compute. exact I.
Defined.

(** ** Where the file goes *)

Lemma filename_of_marked resp identifier cd pre suf :
  headers_get resp (lit "content-disposition") = Some cd →
  cd = pre ++ lit "filename=" ++ suf →
  contains (lit "filename=") suf = false →
  filename_of resp identifier = strip_chars [34] (strip suf).
Proof.
  intros Hcd Heq Hsuf. unfold filename_of. rewrite Hcd.
  assert (contains (lit "filename=") cd = true) as ->
    by (apply contains_iff; eauto).
  assert (truthy cd = true) as ->.
  { unfold truthy. rewrite bool_decide_eq_false_2; [done|].
    rewrite Heq. by destruct pre. }
  simpl. by rewrite (split_last _ _ pre suf marker_unbordered ltac:(done) Heq Hsuf).
Qed.

Lemma files_except_finally url x w :
  files (except_finally url x w) = files w.
Proof. unfold except_finally. by destruct (exit_raised x). Qed.

(** The files after a task whose response passes and whose file opens. *)
Lemma files_after_transfer o url output_folder w link identifier resp :
  unwrap_pillowcase_url url = Some link →
  ID_PATTERN_search link = Some identifier →
  session_get o (download_url_of identifier) = Replied resp →
  (status resp < 400)%Z →
  open_error o (os_path_join output_folder (filename_of resp identifier)) = None →
  files (download_file o url output_folder w) =
    match path_node w (os_path_join output_folder (filename_of resp identifier)) with
    | Other name => <[name := concat (chunks resp)]> (files w)
    | ErrorLog => files w
    end.
Proof.
  intros Hu Hid Hget Hst%Z.leb_gt Hopen. unfold download_file.
  rewrite (try_body_translated _ _ _ _ _ _ Hu Hid), Hget, Hst. simpl.
  rewrite Hopen, files_except_finally, write_chunks_open_wb.
  unfold set_content. by destruct (path_node w _).
Qed.

(** X10.  A name from the header that starts with a slash takes the file
    out of the output folder: [os.path.join] drops the folder, and the body
    is written to the path that the server named, which is a file of its
    own or, if the file system has it so, the error log. *)
Theorem absolute_name_leaves_folder (o : Oracle) (url output_folder link identifier : str)
    (resp : Response) (cd pre suf rest : str) (w : World) :
  unwrap_pillowcase_url url = Some link →
  ID_PATTERN_search link = Some identifier →
  session_get o (download_url_of identifier) = Replied resp →
  (status resp < 400)%Z →
  headers_get resp (lit "content-disposition") = Some cd →
  cd = pre ++ lit "filename=" ++ suf →
  contains (lit "filename=") suf = false →
  strip_chars [34] (strip suf) = 47 :: rest →
  open_error o (47 :: rest) = None →
  os_path_join output_folder (filename_of resp identifier) = 47 :: rest ∧
  files (download_file o url output_folder w) =
    match path_node w (47 :: rest) with
    | Other name => <[name := concat (chunks resp)]> (files w)
    | ErrorLog => files w
    end.
Proof.
  intros Hu Hid Hget Hst Hcd Heq Hsuf Hname Hopen.
  pose proof (filename_of_marked resp identifier _ _ _ Hcd Heq Hsuf) as Hfn.
  rewrite Hname in Hfn.
  assert (os_path_join output_folder (filename_of resp identifier) = 47 :: rest)
    as Hpath by by rewrite Hfn.
  split; [done|].
  rewrite <- Hpath. apply (files_after_transfer _ _ _ _ link); try done.
  by rewrite Hpath.
Qed.

Lemma absolute_name_leaves_folder_witness :
  let resp := {| status := 200; status_error := [];
                 headers_get :=
                   only_disposition (lit "attachment; filename=/tmp/evil.sh");
                 chunks := [[35; 33]]; transfer_error := None |} in
  files (download_file (answering resp) sample_link sample_folder empty_world) =
    {[ lit "/tmp/evil.sh" := [35; 33] ]}.
Proof.
  intros resp.
  rewrite (proj2 (absolute_name_leaves_folder (answering resp) sample_link
             sample_folder sample_link sample_id resp
             (lit "attachment; filename=/tmp/evil.sh") (lit "attachment; ")
             (lit "/tmp/evil.sh") (lit "tmp/evil.sh") empty_world
             eq_refl eq_refl eq_refl eq_refl eq_refl eq_refl eq_refl eq_refl eq_refl)).
  reflexivity.
Defined.

Lemma ends_with_slash_spec a : startswith (lit "/") (rev a) = ends_with_slash a.
Proof.
  unfold ends_with_slash. destruct a as [|c a _] using rev_ind; [done|].
  rewrite rev_app_distr, last_snoc.
  change (startswith (lit "/") (rev [c] ++ rev a)) with ((47 =? c) && true).
  rewrite andb_true_r. destruct (47 =? c) eqn:Hc.
  - apply N.eqb_eq in Hc as <-. by rewrite bool_decide_eq_true_2.
  - apply N.eqb_neq in Hc. rewrite bool_decide_eq_false_2; [done|]. congruence.
Qed.

(** X11.  Without a name from the header the file stays in the output
    folder: its path is the folder, a slash exactly when the folder is not
    empty and does not end with one, and then the identifier and [.bin],
    a name without a slash. *)
Theorem default_name_stays_in_folder (o : Oracle) (url output_folder link identifier : str)
    (resp : Response) (w : World) :
  unwrap_pillowcase_url url = Some link →
  ID_PATTERN_search link = Some identifier →
  session_get o (download_url_of identifier) = Replied resp →
  (status resp < 400)%Z →
  headers_get resp (lit "content-disposition") = None →
  open_error o (os_path_join output_folder (identifier ++ lit ".bin")) = None →
  let slash := if bool_decide (output_folder = []) || ends_with_slash output_folder
               then [] else lit "/" in
  let filepath := output_folder ++ slash ++ identifier ++ lit ".bin" in
  os_path_join output_folder (filename_of resp identifier) = filepath ∧
  (47 ∉ identifier ++ lit ".bin") ∧
  files (download_file o url output_folder w) =
    match path_node w filepath with
    | Other name => <[name := concat (chunks resp)]> (files w)
    | ErrorLog => files w
    end.
Proof.
  intros Hu Hid Hget Hst Hcd Hopen slash filepath.
  assert (filename_of resp identifier = identifier ++ lit ".bin") as Hfn
    by (unfold filename_of; by rewrite Hcd).
  pose proof (files_after_transfer o url output_folder w link identifier resp
                Hu Hid Hget Hst) as Hfiles.
  rewrite Hfn in Hfiles. specialize (Hfiles Hopen).
  destruct (ID_PATTERN_search_some _ _ Hid) as (Hl & Hh & _).
  assert (47 ∉ (identifier ++ lit ".bin")) as Hnoslash.
  { intros [Hin|Hin]%elem_of_app.
    - rewrite forallb_forall in Hh. apply list_elem_of_In, Hh in Hin.
      vm_compute in Hin. discriminate Hin.
    - change (lit ".bin") with [46; 98; 105; 110] in Hin.
      repeat (apply elem_of_cons in Hin as [Hin|Hin]; [discriminate Hin|]).
      by apply elem_of_nil in Hin. }
  assert (os_path_join output_folder (identifier ++ lit ".bin") = filepath)
    as Hpath.
  { unfold os_path_join, filepath, slash.
    assert (startswith (lit "/") (identifier ++ lit ".bin") = false) as ->.
    { destruct identifier as [|c r]; [done|].
      change (startswith (lit "/") ((c :: r) ++ lit ".bin"))
        with ((47 =? c) && true).
      rewrite andb_true_r. apply N.eqb_neq. intros <-.
      apply Hnoslash, elem_of_app. left. by apply elem_of_cons; left. }
    rewrite ends_with_slash_spec. unfold truthy. rewrite negb_involutive.
    by destruct (bool_decide (output_folder = []) || ends_with_slash output_folder). }
  rewrite Hfn, Hfiles, Hpath. done.
Qed.

Lemma default_name_stays_in_folder_witness :
  files (download_file (answering dropped_response) sample_link sample_folder
           empty_world) =
    {[ lit "downloads/2024-01-01_00-00-00/deadbeefdeadbeefdeadbeefdeadbeef.bin"
       := [1; 2] ]} ∧
  files (download_file (answering dropped_response) sample_link (lit "out/")
           empty_world) =
    {[ lit "out/deadbeefdeadbeefdeadbeefdeadbeef.bin" := [1; 2] ]}.
Proof.
  split.
  - destruct (default_name_stays_in_folder (answering dropped_response) sample_link
                sample_folder sample_link sample_id dropped_response empty_world
                eq_refl eq_refl eq_refl eq_refl eq_refl eq_refl) as (_ & _ & Hfiles).
    rewrite Hfiles. reflexivity.
  - destruct (default_name_stays_in_folder (answering dropped_response) sample_link
                (lit "out/") sample_link sample_id dropped_response empty_world
                eq_refl eq_refl eq_refl eq_refl eq_refl eq_refl) as (_ & _ & Hfiles).
    rewrite Hfiles. reflexivity.
Defined.

(** ** More on the loop *)

Section LoopFacts.

Context (output_folder : str).

Implicit Types (s : System) (t : Task) (p : Phase) (w : World).

Lemma resume_rank t w p w' :
  resume output_folder t w = (p, w') →
  (phase_rank (task_phase t) ≤ phase_rank p)%nat.
Proof.
  unfold resume.
  destruct (task_phase t) as [|identifier|filename filepath [|c rest] ending|];
    simpl; try (intros [= <- _]; simpl; lia).
  - unfold resolve. destruct (unwrap_pillowcase_url _) as [[|c r]|];
      try (intros [= <- _]; simpl; lia).
    destruct (ID_PATTERN_search _); intros [= <- _]; simpl; lia.
  - unfold receive. destruct (session_get _ _) as [e|resp];
      [intros [= <- _]; simpl; lia|].
    destruct (400 <=? status resp)%Z; [intros [= <- _]; simpl; lia|].
    simpl. destruct (open_error _ _); intros [= <- _]; simpl; lia.
Qed.

Lemma step_rank s s' i t :
  step output_folder s s' → tasks s !! i = Some t →
  ∃ t', tasks s' !! i = Some t' ∧
        (phase_rank (task_phase t) ≤ phase_rank (task_phase t'))%nat.
Proof.
  intros [j (tj & p & Hj & _ & Hres & Htasks & _)%step_task_some] Hi.
  rewrite Htasks. destruct (decide (i = j)) as [->|Hne].
  - exists (set_phase p tj). rewrite list_lookup_insert_eq
      by by eapply lookup_lt_Some.
    split; [done|]. simpl. replace t with tj by congruence.
    by eapply resume_rank.
  - exists t. by rewrite list_lookup_insert_ne.
Qed.

Lemma tally_lt f (l : list Task) i t :
  l !! i = Some t → f t = false → (tally f l < length l)%nat.
Proof.
  unfold tally. revert i. induction l as [|x l IH]; intros i Hi Hf; [done|].
  rewrite filter_cons. destruct i as [|i]; simpl in *.
  - injection Hi as ->. rewrite decide_False by congruence.
    pose proof (length_filter (λ t, f t = true) l). lia.
  - specialize (IH _ Hi Hf). case_decide; simpl; lia.
Qed.

Lemma all_finished_idle s : all_finished s → active s = 0%nat.
Proof.
  intros Hfin. unfold active. apply tally_none.
  eapply Forall_impl; [exact Hfin|]. by intros t ->.
Qed.

(** More resumptions than a task needs change nothing. *)
Lemma resume_times_finished n t w :
  task_phase t = Finished → resume_times output_folder n t w = (Finished, w).
Proof.
  revert t w. induction n as [|n IH]; intros t w Hfin; simpl; [by rewrite Hfin|].
  unfold resume. rewrite Hfin. by apply IH.
Qed.

Lemma steps_left_zero t :
  steps_left output_folder t = 0%nat → task_phase t = Finished.
Proof.
  unfold steps_left. destruct (task_phase t); try done.
  destruct (unwrap_pillowcase_url _) as [[|? ?]|]; try done.
  by destruct (ID_PATTERN_search _).
Qed.

Lemma resume_times_enough n t w :
  (steps_left output_folder t ≤ n)%nat →
  resume_times output_folder n t w =
    resume_times output_folder (steps_left output_folder t) t w.
Proof.
  revert t w. induction (lt_wf n) as [n _ IH]. intros t w Hn.
  destruct (is_finished (task_phase t)) eqn:Hisf.
  { assert (task_phase t = Finished) by (by destruct (task_phase t)).
    by rewrite !resume_times_finished. }
  assert (task_phase t ≠ Finished) as Hnf by (by intros Heq; rewrite Heq in Hisf).
  destruct (steps_left output_folder t) as [|k] eqn:Hk.
  { by apply steps_left_zero in Hk. }
  destruct n as [|n]; [lia|]. simpl.
  destruct (resume output_folder t w) as [p w'] eqn:Hres.
  destruct (resume_spec _ _ _ _ _ Hnf Hres) as (_ & _ & Hless).
  rewrite Hk in Hless.
  rewrite (IH n) by lia. rewrite (IH k) by lia. done.
Qed.

End LoopFacts.

(** X12.  Every run of the loop ends: [n] resumptions use up at least [n]
    of the resumptions that the tasks had left, so no run is longer than
    [remaining] says at its start. *)
Theorem loop_terminates (output_folder : str) (n : nat) (s s' : System) :
  nsteps (step output_folder) n s s' →
  (n + remaining output_folder s' ≤ remaining output_folder s)%nat.
Proof.
  induction 1 as [|n s1 s2 s3 Hstep _ IH]; [done|].
  apply step_remaining in Hstep as [Hless _]. lia.
Qed.

Lemma loop_terminates_witness :
  let s := initial_system (λ _, answering song_response)
             [sample_link; lit "junk"] empty_world in
  let s' := run sample_folder [0; 1]%nat s in
  remaining sample_folder s = 6%nat ∧ remaining sample_folder s' = 4%nat ∧
  (2 + remaining sample_folder s' ≤ remaining sample_folder s)%nat.
Proof.
  intros s s'. split; [reflexivity|]. split; [reflexivity|].
  apply (loop_terminates sample_folder 2 s s').
  eapply nsteps_l; [by exists 0%nat|].
  eapply nsteps_l; [by exists 1%nat|]. apply nsteps_O.
Defined.

(** X13.  The loop of [main] never hangs: in every state it reaches,
    either all tasks are finished or some task can be resumed. *)
Theorem loop_never_stuck (os : nat → Oracle) (urls : list str) (w : World)
    (output_folder : str) (s : System) :
  steps output_folder (initial_system os urls w) s →
  all_finished s ∨ ∃ s', step output_folder s s'.
Proof.
  intros Hsteps.
  pose proof (steps_accounted _ _ _ _ _ Hsteps (initial_system_accounted os urls w))
    as Hacc.
  destruct (step_first output_folder (seq 0 (length (tasks s))) s) as [s'|] eqn:Hfirst.
  - right. exists s'. by eapply step_first_some.
  - left. eapply (stuck_all_finished output_folder MAX_CONCURRENT_DOWNLOADS);
      [unfold MAX_CONCURRENT_DOWNLOADS; lia|done|].
    intros i Hi. eapply step_first_none; [done|].
    apply list_elem_of_In, in_seq. lia.
Qed.

Lemma loop_never_stuck_witness :
  let s := run sample_folder (seq 0 17)
             (initial_system (λ _, answering song_response)
                (replicate 17 sample_link) empty_world) in
  semaphore s = 0%nat ∧ (all_finished s ∨ ∃ s', step sample_folder s s').
Proof.
  intros s. split; [reflexivity|].
  apply (loop_never_stuck (λ _, answering song_response) (replicate 17 sample_link)
           empty_world sample_folder s).
  apply run_steps.
Defined.

(** X14.  When the loop of [main] is over, every slot of the semaphore is
    free again and no request is under way. *)
Theorem slots_free_at_end (os : nat → Oracle) (urls : list str) (w : World)
    (output_folder : str) (s : System) :
  steps output_folder (initial_system os urls w) s →
  all_finished s →
  semaphore s = MAX_CONCURRENT_DOWNLOADS ∧ active s = 0%nat.
Proof.
  intros Hsteps Hfin.
  destruct (steps_accounted _ _ _ _ _ Hsteps (initial_system_accounted os urls w))
    as [Hslots _].
  pose proof (all_finished_idle s Hfin). lia.
Qed.

Lemma slots_free_at_end_witness :
  let s := gather sample_folder [3; 1; 1]%nat
             (initial_system (λ _, answering dropped_response)
                (replicate 20 sample_link) empty_world) in
  semaphore s = 15%nat ∧ active s = 0%nat.
Proof.
  intros s.
  destruct (gather_spec sample_folder MAX_CONCURRENT_DOWNLOADS 0 [3; 1; 1]%nat
              (initial_system (λ _, answering dropped_response)
                 (replicate 20 sample_link) empty_world)
              ltac:(unfold MAX_CONCURRENT_DOWNLOADS; lia)
              (initial_system_accounted _ _ _)) as (Hsteps & Hfin & _).
  exact (slots_free_at_end _ _ _ _ _ Hsteps Hfin).
Defined.

(** X15.  A task only moves forward through its phases, pending,
    requesting, streaming, finished: no phase is entered again, and a
    finished task stays finished. *)
Theorem phases_only_advance (output_folder : str) (s s' : System) (i : nat) (t : Task) :
  steps output_folder s s' →
  tasks s !! i = Some t →
  ∃ t', tasks s' !! i = Some t' ∧
        (phase_rank (task_phase t) ≤ phase_rank (task_phase t'))%nat ∧
        (task_phase t = Finished → task_phase t' = Finished).
Proof.
  intros Hsteps. revert t.
  induction Hsteps as [s|s1 s2 s3 Hstep _ IH]; intros t Hi.
  - exists t. by repeat split.
  - destruct (step_rank _ _ _ _ _ Hstep Hi) as (t2 & Hi2 & Hle).
    destruct (IH _ Hi2) as (t3 & Hi3 & Hle3 & _).
    exists t3. split; [done|]. split; [lia|].
    intros Hfin. rewrite Hfin in Hle. simpl in Hle.
    destruct (task_phase t3); simpl in *; done || lia.
Qed.

Lemma phases_only_advance_witness :
  let s := run sample_folder [0; 0]%nat
             (initial_system (λ _, answering song_response) [sample_link]
                empty_world) in
  let s' := run sample_folder [0; 0; 0]%nat s in
  ∃ t t', tasks s !! 0%nat = Some t ∧ tasks s' !! 0%nat = Some t' ∧
          phase_rank (task_phase t) = 2%nat ∧
          (phase_rank (task_phase t) ≤ phase_rank (task_phase t'))%nat.
Proof.
  intros s s'.
  destruct (tasks s !! 0%nat) as [t|] eqn:Ht; [|discriminate Ht].
  destruct (phases_only_advance sample_folder s s' 0 t (run_steps _ _ _) Ht)
    as (t' & Ht' & Hle & _).
  exists t, t'. split; [done|]. split; [exact Ht'|]. split; [|exact Hle].
  vm_compute in Ht. injection Ht as <-. reflexivity.
Defined.

(** X16.  With at most 15 lines no task ever waits for the semaphore: in
    every state that the loop of [main] reaches, each pending task can be
    started at once. *)
Theorem few_lines_never_wait (os : nat → Oracle) (urls : list str) (w : World)
    (output_folder : str) (s : System) (i : nat) (t : Task) :
  (length urls ≤ MAX_CONCURRENT_DOWNLOADS)%nat →
  steps output_folder (initial_system os urls w) s →
  tasks s !! i = Some t → task_phase t = Pending →
  is_Some (step_task output_folder i s).
Proof.
  intros Hfew Hsteps Hi Hpending.
  destruct (steps_accounted _ _ _ _ _ Hsteps (initial_system_accounted os urls w))
    as [Hslots _].
  pose proof (steps_length _ _ _ Hsteps) as Hlen.
  simpl in Hlen. rewrite length_imap in Hlen.
  assert (holds_slot (task_phase t) = false) as Hidle by by rewrite Hpending.
  pose proof (tally_lt (λ t, holds_slot (task_phase t)) _ _ _ Hi Hidle) as Hlt.
  unfold active in Hslots.
  unfold step_task. rewrite Hi. cbv beta iota. rewrite Hpending.
  destruct (semaphore s) as [|free]; [lia|].
  destruct (resume output_folder t (world s)). eauto.
Qed.

Lemma few_lines_never_wait_witness :
  let s := run sample_folder [0; 1; 0]%nat
             (initial_system (λ _, answering song_response)
                (replicate 15 sample_link) empty_world) in
  is_Some (step_task sample_folder 14 s).
Proof.
  intros s.
  destruct (tasks s !! 14%nat) as [t|] eqn:Ht; [|discriminate Ht].
  apply (few_lines_never_wait (λ _, answering song_response)
           (replicate 15 sample_link) empty_world sample_folder s 14 t).
  - vm_compute. lia.
  - apply run_steps.
  - exact Ht.
  - vm_compute in Ht. injection Ht as <-. reflexivity.
Defined.

(** ** A run with one line *)

Lemma single_task_steps output_folder t s s' :
  steps output_folder s s' → tasks s = [t] →
  ∃ t', tasks s' = [t'] ∧
        resume_times output_folder (steps_left output_folder t') t' (world s') =
          resume_times output_folder (steps_left output_folder t) t (world s).
Proof.
  intros Hsteps. revert t.
  induction Hsteps as [s|s1 s2 s3 Hstep _ IH]; intros t Ht; [by exists t|].
  destruct Hstep as [i (tj & p & Hi & Hnf & Hres & Htasks & _)%step_task_some].
  rewrite Ht in Hi, Htasks.
  destruct i as [|i]; [|by destruct i]. simpl in Hi, Htasks.
  injection Hi as <-.
  destruct (IH _ Htasks) as (t' & Ht' & Hrun). exists t'. split; [done|].
  rewrite Hrun.
  destruct (resume_spec _ _ _ _ _ Hnf Hres) as (_ & _ & Hless).
  destruct (steps_left output_folder t) as [|k] eqn:Hk; [lia|].
  simpl. rewrite Hres. symmetry. apply resume_times_enough. lia.
Qed.

(** X17.  A run with a single line does what [download_file] does, in
    whatever order the loop takes its turns. *)
Theorem single_line_run (os : nat → Oracle) (url output_folder : str)
    (schedule : list nat) (w : World) :
  world (gather output_folder schedule (initial_system os [url] w)) =
    download_file (os 0%nat) url output_folder w.
Proof.
  destruct (gather_spec output_folder MAX_CONCURRENT_DOWNLOADS (progress w) schedule
              (initial_system os [url] w)
              ltac:(unfold MAX_CONCURRENT_DOWNLOADS; lia)
              (initial_system_accounted _ _ _)) as (Hsteps & Hfin & _).
  destruct (single_task_steps _ (Build_Task url (os 0%nat) Pending) _ _ Hsteps eq_refl)
    as (t' & Ht' & Hrun).
  rewrite resume_times_download_file in Hrun. simpl in Hrun.
  unfold all_finished in Hfin. rewrite Ht' in Hfin.
  apply Forall_cons in Hfin as [Hfin _].
  rewrite resume_times_finished in Hrun by done. by injection Hrun.
Qed.

(** ** More on [main] *)





(** *** The directories of a run *)










(** ** When there is no work *)

Section NoWork.

Implicit Types cur s line : str.

Lemma lstrip_by_all f s : forallb f s = true → lstrip_by f s = [].
Proof.
  induction s as [|c s IH]; simpl; [done|].
  intros [Hc Hs]%andb_prop. rewrite Hc. by apply IH.
Qed.

Lemma strip_empty_iff line : strip line = [] ↔ forallb isspace line = true.
Proof.
  split.
  - intros Hempty.
    destruct (strip_by_spec isspace line) as (a & b & Hab & Ha & Hb & _).
    fold (strip line) in Hab. rewrite Hempty in Hab. simpl in Hab.
    by rewrite Hab, forallb_app, Ha, Hb.
  - intros Hall. unfold strip, strip_by, rstrip_by.
    by rewrite (lstrip_by_all _ _ Hall).
Qed.

Lemma stripped_lines_nil lines :
  stripped_lines lines = [] ↔
  Forall (λ line, forallb isspace line = true) lines.
Proof.
  induction lines as [|line lines IH]; [done|].
  rewrite stripped_lines_cons, Forall_cons, <- IH, <- strip_empty_iff.
  unfold truthy. destruct (strip line) as [|c r] eqn:Hstrip.
  - rewrite bool_decide_eq_true_2 by done. simpl. intuition done.
  - rewrite bool_decide_eq_false_2 by done. simpl. intuition done.
Qed.

Lemma forallb_snoc (f : N → bool) s c :
  forallb f (s ++ [c]) = forallb f s && f c.
Proof. by rewrite forallb_app; simpl; rewrite andb_true_r. Qed.

Lemma file_lines_all_space s cur :
  Forall (λ line, forallb isspace line = true) (file_lines cur s) ↔
  forallb isspace cur = true ∧ forallb isspace s = true.
Proof.
  pattern cur, s. revert s cur. apply file_lines_cases.
  - intros cur. destruct cur as [|c cur]; simpl; [by rewrite Forall_nil|].
    rewrite Forall_singleton. simpl. intuition done.
  - intros cur s IH. simpl file_lines. rewrite Forall_cons, IH, forallb_snoc.
    simpl. rewrite andb_true_r. intuition done.
  - intros cur s IH. simpl file_lines. rewrite Forall_cons, IH, forallb_snoc.
    simpl. rewrite andb_true_r. intuition done.
  - intros cur. simpl file_lines. rewrite Forall_singleton, forallb_snoc.
    simpl. rewrite andb_true_r. intuition done.
  - intros cur d s Hd IH. rewrite file_lines_cr by done.
    rewrite Forall_cons, IH, forallb_snoc.
    change (forallb isspace (13 :: d :: s)) with (forallb isspace (d :: s)).
    simpl. rewrite andb_true_r. intuition done.
  - intros cur c s H10 H13 IH. rewrite file_lines_char by done.
    rewrite IH, forallb_snoc. simpl. rewrite !andb_true_iff. intuition done.
Qed.

End NoWork.

(** X21.  [parse_urls] returns no line exactly when the text holds nothing
    but whitespace; so [main] answers [No URLs found.] for such files and
    for no others. *)
Theorem parse_urls_empty_iff (text : str) :
  parse_urls text = [] ↔ forallb isspace text = true.
Proof.
  rewrite parse_urls_unfold, stripped_lines_nil, file_lines_all_space.
  simpl. intuition done.
Qed.

Lemma parse_urls_empty_iff_witness :
  parse_urls [32; 10; 9; 13; 10; 160] = [] ∧
  forallb isspace (lit " x ") = false.
Proof.
  split.
  - exact (proj2 (parse_urls_empty_iff [32; 10; 9; 13; 10; 160]) eq_refl).
  - destruct (forallb isspace (lit " x ")) eqn:Hall; [|reflexivity].
    apply (proj2 (parse_urls_empty_iff (lit " x "))) in Hall. discriminate Hall.
Defined.
